(** * Chess-InkPlate: font registry and glyph cache

    A shallow embedding of [Fonts] (src/include/models/fonts.hpp and its
    implementation file) and of [TTF] (src/src/models/ttf2.cpp), with the
    properties of the font registry, the glyph cache and the byte pool
    stated and proved over it.

    Conventions
    - C++ integers are [Z]; every conversion to a fixed-width type that the
      source performs is written out with [to_uint16], [to_int16] or
      [to_size_t].
    - A method is a computation [M S A] over the state [S] it can touch
      ([TTF] for the methods of a face, [World] for the registry).  A
      computation either finishes with a value, a new state and the events
      it emitted ([LOG_E] lines and calls into FreeType or the file system)
      or stops with a fault ([std::abort], an uncaught [std::out_of_range],
      a null dereference).
    - FreeType, the file system and the screen are collaborators outside the
      repository: they are Section variables, instantiated by a synthetic
      face wherever a statement is exercised on concrete data. *)

From stdpp Require Import base gmap list strings.
From Stdlib Require Import ZArith Lia.

Open Scope Z_scope.

(* ===================================================================== *)
(** ** Fixed-width integers *)
(* ===================================================================== *)

Module Ints.

Definition to_unsigned (bits x : Z) : Z := x mod 2 ^ bits.

Definition to_signed (bits x : Z) : Z :=
  (x + 2 ^ (bits - 1)) mod 2 ^ bits - 2 ^ (bits - 1).

Definition to_uint16 : Z -> Z := to_unsigned 16.
Definition to_int16 : Z -> Z := to_signed 16.

Definition is_int16 (x : Z) : Prop := -32768 <= x <= 32767.
Definition is_uint16 (x : Z) : Prop := 0 <= x <= 65535.

End Ints.
Import Ints.

(* ===================================================================== *)
(** ** Computations with state, events and faults *)
(* ===================================================================== *)

(** What a method can emit.  [LOG_E] and [LOG_D] carry the format string of
    the source and its integer arguments. *)
Inductive Event :=
| LOG_E (fmt : string) (args : list Z)
| LOG_D (fmt : string) (args : list Z)
| Call_FT_Set_Char_Size (char_height : Z)
| Call_FT_Load_Glyph (glyph_index : Z)
| Call_FT_Render_Glyph (mono : bool)
| Call_fopen (filename : string)
| Call_FT_New_Memory_Face (buffer_size : Z).

Inductive Fault :=
| Abort          (* std::abort() *)
| OutOfRange     (* std::out_of_range thrown by vector::at *)
| NullDeref.     (* a member call through a null or dangling pointer *)

Inductive Outcome (S A : Type) :=
| Done (a : A) (s : S) (tr : list Event)
| Failed (f : Fault) (tr : list Event).
Arguments Done {S A} a s tr.
Arguments Failed {S A} f tr.

Definition M (S A : Type) : Type := S -> Outcome S A.

#[global] Instance M_ret {S} : MRet (M S) :=
  fun A (a : A) s => Done a s [].

#[global] Instance M_bind {S} : MBind (M S) :=
  fun A B (k : A -> M S B) (m : M S A) s =>
    match m s with
    | Done a s1 tr1 =>
        match k a s1 with
        | Done b s2 tr2 => Done b s2 (tr1 ++ tr2)
        | Failed f tr2 => Failed f (tr1 ++ tr2)
        end
    | Failed f tr1 => Failed f tr1
    end.

Definition get_state {S} : M S S := fun s => Done s s [].
Definition modify {S} (f : S -> S) : M S unit := fun s => Done tt (f s) [].
Definition emit {S} (e : Event) : M S unit := fun s => Done tt s [e].
Definition fail {S A} (f : Fault) : M S A := fun _ => Failed f [].

Definition result_of {S A} (o : Outcome S A) : option A :=
  match o with Done a _ _ => Some a | Failed _ _ => None end.
Definition trace_of {S A} (o : Outcome S A) : list Event :=
  match o with Done _ _ tr => tr | Failed _ tr => tr end.

(* ===================================================================== *)
(** ** Face styles and [Fonts::adjust_font_style] *)
(* ===================================================================== *)

(** [enum class FaceStyle : uint8_t { NORMAL = 0, BOLD, ITALIC, BOLD_ITALIC }] *)
Inductive FaceStyle := NORMAL | BOLD | ITALIC | BOLD_ITALIC.

#[global] Instance FaceStyle_eq_dec : EqDecision FaceStyle.
Proof. solve_decision. Defined.

(** The first [if / else if] of [adjust_font_style]: the block driven by
    [font_style]. *)
Definition font_style_block (font_style style : FaceStyle) : FaceStyle :=
  if decide (font_style = ITALIC) then
    if decide (style = NORMAL) then ITALIC
    else if decide (style = BOLD) then BOLD_ITALIC
    else style
  else if decide (font_style = NORMAL) then
    if decide (style = BOLD_ITALIC) then BOLD
    else if decide (style = ITALIC) then NORMAL
    else style
  else style.

(** The second [if / else if]: the block driven by [font_weight]. *)
Definition font_weight_block (font_weight style : FaceStyle) : FaceStyle :=
  if decide (font_weight = BOLD) then
    if decide (style = ITALIC) then BOLD_ITALIC
    else if decide (style = NORMAL) then BOLD
    else style
  else if decide (font_weight = NORMAL) then
    if decide (style = BOLD) then NORMAL
    else if decide (style = BOLD_ITALIC) then ITALIC
    else style
  else style.

(** [Fonts::adjust_font_style]: [style] is a by-value parameter updated by
    the two blocks in turn and returned. *)
Definition adjust_font_style (style font_style font_weight : FaceStyle) : FaceStyle :=
  let style := font_style_block font_style style in
  let style := font_weight_block font_weight style in
  style.

(** The two components of a style in the four-way enumeration. *)
Definition is_bold (s : FaceStyle) : bool :=
  match s with BOLD | BOLD_ITALIC => true | _ => false end.
Definition is_italic (s : FaceStyle) : bool :=
  match s with ITALIC | BOLD_ITALIC => true | _ => false end.

(* ===================================================================== *)
(** ** Collaborators outside the repository *)
(* ===================================================================== *)

(** A FreeType call returns an error code; [FT_Err] carries a non-zero one. *)
Inductive FT_Result (A : Type) :=
| FT_Ok (a : A)
| FT_Err (error : Z).
Arguments FT_Ok {A} a.
Arguments FT_Err {A} error.

(** The fields of [FT_GlyphSlotRec] that [get_glyph_internal] reads.  The
    pixel data behind [bitmap.buffer] is not tracked. *)
Record FT_GlyphSlot := {
  metrics_width : Z;
  metrics_height : Z;
  format_is_bitmap : bool;        (* format == FT_GLYPH_FORMAT_BITMAP *)
  bitmap_pitch : Z;
  bitmap_rows : Z;
  bitmap_width : Z;
  bitmap_left : Z;
  bitmap_top : Z;
  advance_x : Z                   (* 26.6 fixed point *)
}.

(** An [FT_Face]: the handle of the opened resource and the character height
    (26.6 fixed point) FreeType was last configured with, [None] on a face
    that was never sized. *)
Record FT_FaceRec := {
  handle : nat;
  char_height : option Z
}.

Inductive PixelResolution := ONE_BIT | THREE_BITS.

#[global] Instance PixelResolution_eq_dec : EqDecision PixelResolution.
Proof. solve_decision. Defined.

(** What [fopen] then [fread] of a font file give. *)
Inductive FileResult :=
| CannotOpen
| CannotRead
| Contents (bytes : list Byte.byte).

(** FreeType, the file system, the screen and the build configuration.
    [BYTE_POOL_SIZE] (models/ttf2.hpp) and [USE_EPUB_FONTS] (global.hpp) are
    constants declared in headers that are not part of the sources at hand;
    [SIZE_T_BITS] is the width of [size_t] on the target and
    [CHAR_IS_SIGNED] the signedness of plain [char]. *)
Class Env := {
  FT_Get_Char_Index : nat -> Z -> Z;
  FT_Set_Char_Size : nat -> Z -> FT_Result unit;
  FT_Load_Glyph : FT_FaceRec -> Z -> FT_Result FT_GlyphSlot;
  FT_Render_Glyph : FT_GlyphSlot -> bool -> FT_Result FT_GlyphSlot;
  FT_New_Memory_Face : list Byte.byte -> Z -> FT_Result nat;
  read_font_file : string -> FileResult;
  screen_pixel_resolution : PixelResolution;
  BYTE_POOL_SIZE : Z;
  USE_EPUB_FONTS : bool;
  SIZE_T_BITS : Z;
  CHAR_IS_SIGNED : bool
}.

(* ===================================================================== *)
(** ** The glyph cache: class [TTF] *)
(* ===================================================================== *)

(** [struct Dim { uint16_t width; uint16_t height; }] *)
Record Dim := {
  width : Z;
  height : Z
}.

(** A pointer into the byte pool: the chunk and the offset inside it. *)
Record BufPtr := {
  chunk : nat;
  offset : Z
}.

(** Modelled from the spec: the declaration of [TTF::BitmapGlyph]
    (models/ttf2.hpp) is not part of the sources at hand.  The fields are
    those of the spec's data model (pixel width and height, pitch, origin
    offsets, advance, pointer into a pooled buffer) and the ones
    [get_glyph_internal] assigns; the offsets, the advance and the pitch are
    16-bit signed, like the [int16_t] locals [get_size] copies them to.  The
    back-reference [root] is always [this] and is left out. *)
Record BitmapGlyph := {
  buffer : option BufPtr;         (* nullptr is None *)
  dim : Dim;
  xoff : Z;
  yoff : Z;
  advance : Z;
  pitch : Z
}.

(** [std::unordered_map<int16_t, std::unordered_map<int32_t, BitmapGlyph *>>].
    A glyph is never written after it entered the cache, so the map holds
    the glyph itself. *)
Abbreviation Glyphs := (gmap Z BitmapGlyph).
Abbreviation GlyphsCache := (gmap Z (gmap Z BitmapGlyph)).

(** The members of [TTF].  [byte_pools] is the [forward_list] of chunks,
    front first, each chunk named by the rank of its allocation;
    [chunks_allocated] counts the calls of [allocate(BYTE_POOL_SIZE)] so far
    and [bitmap_glyph_pool] the live elements of the glyph pool. *)
Record TTF := {
  face : option FT_FaceRec;
  memory_font : option (list Byte.byte);
  current_size : Z;
  cache : GlyphsCache;
  bitmap_glyph_pool : nat;
  byte_pools : list nat;
  byte_pool_idx : Z;
  fonts_cache_index : Z;
  chunks_allocated : nat
}.

Definition set_face (f : option FT_FaceRec) (t : TTF) : TTF :=
  {| face := f; memory_font := memory_font t; current_size := current_size t;
     cache := cache t; bitmap_glyph_pool := bitmap_glyph_pool t;
     byte_pools := byte_pools t; byte_pool_idx := byte_pool_idx t;
     fonts_cache_index := fonts_cache_index t;
     chunks_allocated := chunks_allocated t |}.

Definition set_memory_font (m : option (list Byte.byte)) (t : TTF) : TTF :=
  {| face := face t; memory_font := m; current_size := current_size t;
     cache := cache t; bitmap_glyph_pool := bitmap_glyph_pool t;
     byte_pools := byte_pools t; byte_pool_idx := byte_pool_idx t;
     fonts_cache_index := fonts_cache_index t;
     chunks_allocated := chunks_allocated t |}.

Definition set_current_size (n : Z) (t : TTF) : TTF :=
  {| face := face t; memory_font := memory_font t; current_size := n;
     cache := cache t; bitmap_glyph_pool := bitmap_glyph_pool t;
     byte_pools := byte_pools t; byte_pool_idx := byte_pool_idx t;
     fonts_cache_index := fonts_cache_index t;
     chunks_allocated := chunks_allocated t |}.

Definition set_cache (c : GlyphsCache) (t : TTF) : TTF :=
  {| face := face t; memory_font := memory_font t; current_size := current_size t;
     cache := c; bitmap_glyph_pool := bitmap_glyph_pool t;
     byte_pools := byte_pools t; byte_pool_idx := byte_pool_idx t;
     fonts_cache_index := fonts_cache_index t;
     chunks_allocated := chunks_allocated t |}.

Definition set_bitmap_glyph_pool (n : nat) (t : TTF) : TTF :=
  {| face := face t; memory_font := memory_font t; current_size := current_size t;
     cache := cache t; bitmap_glyph_pool := n;
     byte_pools := byte_pools t; byte_pool_idx := byte_pool_idx t;
     fonts_cache_index := fonts_cache_index t;
     chunks_allocated := chunks_allocated t |}.

Definition set_byte_pools (l : list nat) (t : TTF) : TTF :=
  {| face := face t; memory_font := memory_font t; current_size := current_size t;
     cache := cache t; bitmap_glyph_pool := bitmap_glyph_pool t;
     byte_pools := l; byte_pool_idx := byte_pool_idx t;
     fonts_cache_index := fonts_cache_index t;
     chunks_allocated := chunks_allocated t |}.

Definition set_byte_pool_idx (i : Z) (t : TTF) : TTF :=
  {| face := face t; memory_font := memory_font t; current_size := current_size t;
     cache := cache t; bitmap_glyph_pool := bitmap_glyph_pool t;
     byte_pools := byte_pools t; byte_pool_idx := i;
     fonts_cache_index := fonts_cache_index t;
     chunks_allocated := chunks_allocated t |}.

Definition set_fonts_cache_index (i : Z) (t : TTF) : TTF :=
  {| face := face t; memory_font := memory_font t; current_size := current_size t;
     cache := cache t; bitmap_glyph_pool := bitmap_glyph_pool t;
     byte_pools := byte_pools t; byte_pool_idx := byte_pool_idx t;
     fonts_cache_index := i;
     chunks_allocated := chunks_allocated t |}.

Definition set_chunks_allocated (n : nat) (t : TTF) : TTF :=
  {| face := face t; memory_font := memory_font t; current_size := current_size t;
     cache := cache t; bitmap_glyph_pool := bitmap_glyph_pool t;
     byte_pools := byte_pools t; byte_pool_idx := byte_pool_idx t;
     fonts_cache_index := fonts_cache_index t;
     chunks_allocated := n |}.

(** [cache.find(glyph_size)] then [->second.find(charcode)]. *)
Definition cache_find (c : GlyphsCache) (glyph_size charcode : Z) : option BitmapGlyph :=
  match c !! glyph_size with
  | Some glyphs => glyphs !! charcode
  | None => None
  end.

(** [cache[size][charcode] = glyph]: [operator[]] creates the inner map when
    [size] has none. *)
Definition cache_store (c : GlyphsCache) (size charcode : Z) (g : BitmapGlyph) : GlyphsCache :=
  <[size := <[charcode := g]> (default ∅ (c !! size))]> c.

(** The number of glyphs the cache holds, over all sizes. *)
Definition cache_count (c : GlyphsCache) : nat :=
  map_fold (fun _ (glyphs : Glyphs) n => (size glyphs + n)%nat) 0%nat c.

Section TTF_methods.
Context `{Env}.

(** [TTF::add_buff_to_byte_pool].  A failed [allocate] ends in
    [msg_viewer.out_of_memory], the terminal failure of the subsystem; the
    model has no memory exhaustion. *)
Definition add_buff_to_byte_pool : M TTF unit :=
  modify (fun t =>
    set_byte_pool_idx 0
      (set_chunks_allocated (S (chunks_allocated t))
        (set_byte_pools (chunks_allocated t :: byte_pools t) t))).

(** [TTF::byte_pool_alloc(uint16_t size)].  [byte_pool_idx] is a 16-bit
    unsigned member: the sum of the test is computed in [int], the update
    [byte_pool_idx += size] converts back. *)
Definition byte_pool_alloc (size : Z) : M TTF BufPtr :=
  if decide (size > BYTE_POOL_SIZE) then
    emit (LOG_E "Byte Pool Size NOT BIG ENOUGH!!!" []);;
    fail Abort
  else
    t ← get_state;
    (if decide (byte_pools t = [] ∨ byte_pool_idx t + size > BYTE_POOL_SIZE) then
       emit (LOG_D "Adding new Byte Pool buffer." []);;
       add_buff_to_byte_pool
     else mret tt);;
    t ← get_state;
    match byte_pools t with
    | front :: _ =>
        let buff := {| chunk := front; offset := byte_pool_idx t |} in
        modify (set_byte_pool_idx (to_uint16 (byte_pool_idx t + size)));;
        mret buff
    | [] => fail NullDeref          (* front() of an empty list *)
    end.

(** [TTF::clear_cache]: every cached glyph goes back to the glyph pool, every
    chunk is freed, the cache is emptied. *)
Definition clear_cache : M TTF unit :=
  modify (fun t =>
    set_cache ∅
      (set_byte_pools []
        (set_bitmap_glyph_pool (bitmap_glyph_pool t - cache_count (cache t))%nat t))).

(** [TTF::clear_face].  [free(memory_font)] releases the buffer and leaves
    the member as it is. *)
Definition clear_face : M TTF unit :=
  clear_cache;;
  modify (fun t => set_current_size (-1) (set_face None t)).

(** [TTF::set_font_size(int16_t size)].  On an error FreeType leaves the
    face as it was sized before; a null face is an error of
    [FT_Set_Char_Size] (FT_Err_Invalid_Face_Handle). *)
Definition set_font_size (size : Z) : M TTF bool :=
  t ← get_state;
  emit (Call_FT_Set_Char_Size (size * 64));;
  match face t with
  | Some f =>
      match FT_Set_Char_Size (handle f) (size * 64) with
      | FT_Ok _ =>
          modify (fun t =>
            set_current_size size
              (set_face (Some {| handle := handle f; char_height := Some (size * 64) |}) t));;
          mret true
      | FT_Err _ =>
          emit (LOG_E "Unable to set font size." []);;
          mret false
      end
  | None =>
      emit (LOG_E "Unable to set font size." []);;
      mret false
  end.


(** [BitmapGlyph * glyph = bitmap_glyph_pool.newElement()].  The element is
    not given back on the path that returns [nullptr] after a failed
    render. *)
Definition pool_new_glyph : M TTF unit :=
  modify (fun t => set_bitmap_glyph_pool (S (bitmap_glyph_pool t)) t).

(** The glyph [get_glyph_internal] fills in from the slot once the bitmap is
    there: each field is converted to the width of the member it is stored
    in.  The two assignments of [dim] from [slot->metrics] before the render
    are overwritten by these and are not kept. *)
Definition glyph_of_slot (slot : FT_GlyphSlot) (buff : option BufPtr) : BitmapGlyph :=
  {| buffer := buff;
     dim := {| width := to_uint16 (bitmap_width slot);
               height := to_uint16 (bitmap_rows slot) |};
     xoff := to_int16 (bitmap_left slot);
     yoff := to_int16 (- bitmap_top slot);
     advance := to_int16 (Z.shiftr (advance_x slot) 6);
     pitch := to_int16 (bitmap_pitch slot) |}.

(** [int32_t size = glyph->pitch * glyph->dim.height] *)
Definition bitmap_size (slot : FT_GlyphSlot) : Z :=
  to_int16 (bitmap_pitch slot) * to_uint16 (bitmap_rows slot).

(** The render step: an outline is rendered at 1 bit on a monochrome screen
    and in gray levels otherwise; a slot that already holds a bitmap is taken
    as it is.  [None] is the [return nullptr] of the failed render. *)
Definition render_slot (charcode : Z) (slot : FT_GlyphSlot) : M TTF (option FT_GlyphSlot) :=
  if format_is_bitmap slot then mret (Some slot)
  else
    let mono := bool_decide (screen_pixel_resolution = ONE_BIT) in
    emit (Call_FT_Render_Glyph mono);;
    match FT_Render_Glyph slot mono with
    | FT_Ok rendered => mret (Some rendered)
    | FT_Err error =>
        emit (LOG_E "Unable to render glyph for charcode: %d error: %d" [charcode; error]);;
        mret None
    end.

(** [TTF::get_glyph_internal(int32_t charcode, int16_t glyph_size)].  The
    call [byte_pool_alloc(size)] converts the [int32_t] size to the
    [uint16_t] parameter. *)
Definition get_glyph_internal (charcode glyph_size : Z) : M TTF (option BitmapGlyph) :=
  t ← get_state;
  match face t with
  | None => mret None
  | Some _ =>
      match cache_find (cache t) glyph_size charcode with
      | Some glyph => mret (Some glyph)
      | None =>
          (if decide (current_size t ≠ glyph_size)
           then set_font_size glyph_size else mret true);;
          t ← get_state;
          match face t with
          | None => fail NullDeref
          | Some f =>
              let glyph_index := FT_Get_Char_Index (handle f) charcode in
              if decide (glyph_index = 0) then
                emit (LOG_E "Charcode not found in face: %d, font_index: %d"
                            [charcode; fonts_cache_index t]);;
                mret None
              else
                emit (Call_FT_Load_Glyph glyph_index);;
                match FT_Load_Glyph f glyph_index with
                | FT_Err _ =>
                    emit (LOG_E "Unable to load glyph for charcode: %d" [charcode]);;
                    mret None
                | FT_Ok slot =>
                    pool_new_glyph;;
                    rendered ← render_slot charcode slot;
                    match rendered with
                    | None => mret None
                    | Some slot =>
                        let size := bitmap_size slot in
                        buff ← (if decide (size > 0)
                                then b ← byte_pool_alloc (to_uint16 size); mret (Some b)
                                else mret None);
                        let glyph := glyph_of_slot slot buff in
                        modify (fun t =>
                          set_cache (cache_store (cache t) (current_size t) charcode glyph) t);;
                        mret (Some glyph)
                    end
                end
          end
      end
  end.

(** [TTF::get_glyph] *)
Definition get_glyph (charcode glyph_size : Z) : M TTF (option BitmapGlyph) :=
  get_glyph_internal charcode glyph_size.

(** The value of a plain [char] passed to the [int32_t] parameter. *)
Definition char_to_int32 (ch : Byte.byte) : Z :=
  let n := Z.of_N (Byte.to_N ch) in
  if CHAR_IS_SIGNED then (if decide (n >= 128) then n - 256 else n) else n.

(** The loop of [TTF::get_size] over the characters of [str] up to the
    terminating NUL (the end of the list, or a zero byte before it), with
    the locals [dim->width], [max_up] and [max_down] threaded through. *)
Fixpoint get_size_loop (str : list Byte.byte) (glyph_size : Z)
    (dim_width max_up max_down : Z) : M TTF (Z * Z * Z) :=
  match str with
  | [] => mret (dim_width, max_up, max_down)
  | ch :: rest =>
      if Byte.eqb ch Byte.x00 then mret (dim_width, max_up, max_down)
      else
        glyph ← get_glyph_internal (char_to_int32 ch) glyph_size;
        match glyph with
        | Some glyph =>
            let dim_width := to_uint16 (dim_width + advance glyph) in
            let up := to_int16 (- yoff glyph) in
            let down := to_int16 (height (dim glyph) + yoff glyph) in
            let max_up := if decide (up > max_up) then up else max_up in
            let max_down := if decide (down > max_down) then down else max_down in
            get_size_loop rest glyph_size dim_width max_up max_down
        | None => get_size_loop rest glyph_size dim_width max_up max_down
        end
  end.

(** [TTF::get_size(const char * str, Dim * dim, int16_t glyph_size)]: the
    value left in [*dim]. *)
Definition get_size (str : list Byte.byte) (glyph_size : Z) : M TTF Dim :=
  r ← get_size_loop str glyph_size 0 0 0;
  let '(dim_width, max_up, max_down) := r in
  mret {| width := dim_width; height := to_uint16 (max_up + max_down) |}.

(** [TTF::set_font_face_from_memory] *)
Definition set_font_face_from_memory (buffer : list Byte.byte) (buffer_size : Z) : M TTF bool :=
  t ← get_state;
  (if decide (face t ≠ None) then clear_face else mret tt);;
  emit (Call_FT_New_Memory_Face buffer_size);;
  match FT_New_Memory_Face buffer buffer_size with
  | FT_Err _ =>
      emit (LOG_E "The memory font format is unsupported or is broken." []);;
      mret false
  | FT_Ok h =>
      modify (fun t =>
        set_memory_font (Some buffer)
          (set_face (Some {| handle := h; char_height := None |}) t));;
      mret true
  end.

(** [TTF::set_font_face_from_file] *)
Definition set_font_face_from_file (font_filename : string) : M TTF bool :=
  emit (LOG_D "set_font_face_from_file() ..." []);;
  emit (Call_fopen font_filename);;
  match read_font_file font_filename with
  | CannotOpen =>
      emit (LOG_E "set_font_face_from_file: Unable to open font file '%s'" []);;
      mret false
  | CannotRead =>
      emit (LOG_E "set_font_face_from_file: Unable to read file content" []);;
      mret false
  | Contents bytes =>
      set_font_face_from_memory bytes (Z.of_nat (length bytes))
  end.

(** The members of a [TTF] before the body of a constructor runs; the
    members the constructors leave unset ([byte_pool_idx],
    [fonts_cache_index]) are given the value 0.  The static [library] is
    taken as initialised: the constructors are modelled from the call of
    [set_font_face_from_file] or [set_font_face_from_memory] on. *)
Definition TTF_raw : TTF :=
  {| face := None; memory_font := None; current_size := 0; cache := ∅;
     bitmap_glyph_pool := 0; byte_pools := []; byte_pool_idx := 0;
     fonts_cache_index := 0; chunks_allocated := 0 |}.

(** [TTF::TTF(const std::string & filename)] *)
Definition TTF_from_file (filename : string) : M TTF unit :=
  modify (set_face None);;
  set_font_face_from_file filename;;
  modify (set_memory_font None);;
  modify (set_current_size (-1)).

(** [TTF::TTF(unsigned char * buffer, int32_t buffer_size)] *)
Definition TTF_from_memory (buffer : list Byte.byte) (buffer_size : Z) : M TTF unit :=
  modify (set_face None);;
  set_font_face_from_memory buffer buffer_size;;
  modify (set_current_size (-1)).

(** [TTF::~TTF] *)
Definition TTF_destroy : M TTF unit :=
  t ← get_state;
  if decide (face t ≠ None) then clear_face else mret tt.

(** Modelled from the spec: [TTF::ready] is declared in models/ttf2.hpp, which
    is not part of the sources at hand; a face is ready when its font
    resource is open. *)
Definition ready (t : TTF) : bool := bool_decide (face t ≠ None).

End TTF_methods.

(* ===================================================================== *)
(** ** The page-layout state: the data members of class [Page] *)
(* ===================================================================== *)

(** [struct Pos { int16_t x; int16_t y; }] *)
Record Pos := {
  pos_x : Z;
  pos_y : Z
}.

Inductive ComputeMode := LOCATION | MOVE | DISPLAY.

(** [Page::DisplayListEntry]: the command tag selects the member of the
    union. *)
Inductive DisplayListEntry :=
| GLYPH (glyph : BitmapGlyph) (at_pos : Pos)
| IMAGE (image_dim : Dim) (image_advance : Z) (at_pos : Pos)
| HIGHLIGHT (region : Dim) (at_pos : Pos)
| CLEAR_HIGHLIGHT (region : Dim) (at_pos : Pos)
| CLEAR_REGION (region : Dim) (at_pos : Pos)
| SET_REGION (region : Dim) (at_pos : Pos).

Record Page := {
  compute_mode : ComputeMode;
  display_list : list DisplayListEntry;
  line_list : list DisplayListEntry;
  screen_is_full : bool;
  pos : Pos;
  min_y : Z; max_x : Z; max_y : Z; min_x : Z;
  para_max_x : Z; para_min_x : Z;
  line_width : Z; glyphs_height : Z;
  para_indent : Z; top_margin : Z
}.

(* ===================================================================== *)
(** ** The font registry: class [Fonts] *)
(* ===================================================================== *)

(** An address of a [TTF] object on the heap. *)
Abbreviation loc := nat.

(** [struct FontEntry { std::string name; TTF * font; FaceStyle style; }];
    a null [font] is [None]. *)
Record FontEntry := {
  name : string;
  font : option loc;
  style : FaceStyle
}.

(** The state the registry works on: its vector [font_cache], the [TTF]
    objects the entries point to, and, beside them, the state of the global
    [page]. *)
Record World := {
  font_cache : list FontEntry;
  heap : gmap loc TTF;
  page : Page
}.

Definition set_font_cache (l : list FontEntry) (w : World) : World :=
  {| font_cache := l; heap := heap w; page := page w |}.

Definition set_heap (h : gmap loc TTF) (w : World) : World :=
  {| font_cache := font_cache w; heap := h; page := page w |}.

(** A value-initialised [FontEntry], as [vector::resize] appends. *)
Definition FontEntry_default : FontEntry :=
  {| name := ""; font := None; style := NORMAL |}.

(** [vector::resize(n)] *)
Definition resize (n : nat) (l : list FontEntry) : list FontEntry :=
  take n l ++ replicate (n - length l) FontEntry_default.

Section Fonts_methods.
Context `{Env}.

(** A member call [p->m(...)] on the [TTF] object [p] points to. *)
Definition on_font {A} (p : option loc) (m : M TTF A) : M World A :=
  fun w =>
    match p with
    | None => Failed NullDeref []
    | Some l =>
        match heap w !! l with
        | None => Failed NullDeref []
        | Some t =>
            match m t with
            | Done a t' tr => Done a (set_heap (<[l := t']> (heap w)) w) tr
            | Failed f tr => Failed f tr
            end
        end
    end.

(** [new TTF(...)]: a fresh object, on which the constructor runs. *)
Definition new_TTF (constructor : M TTF unit) : M World (option loc) :=
  fun w =>
    let l := fresh (dom (heap w)) in
    match constructor TTF_raw with
    | Done _ t tr => Done (Some l) (set_heap (<[l := t]> (heap w)) w) tr
    | Failed f tr => Failed f tr
    end.

(** [delete p]: the destructor runs, then the object is gone; deleting a
    null pointer does nothing. *)
Definition delete_TTF (p : option loc) : M World unit :=
  match p with
  | None => mret tt
  | Some l =>
      on_font p TTF_destroy;;
      modify (fun w => set_heap (delete l (heap w)) w)
  end.

(** [(int) style] *)
Definition FaceStyle_to_int (s : FaceStyle) : Z :=
  match s with NORMAL => 0 | BOLD => 1 | ITALIC => 2 | BOLD_ITALIC => 3 end.

(** The test of the loop that opens both overloads of [Fonts::add]:
    [(name.compare(font.name) == 0) && (font.style == style)]. *)
Definition same_font (name0 : string) (style0 : FaceStyle) (entry : FontEntry) : bool :=
  bool_decide (name0 = name entry) && bool_decide (style entry = style0).

(** The body the two overloads of [Fonts::add] share; they differ in the
    constructor of [TTF] only. *)
Definition add_with (constructor : M TTF unit) (name0 : string) (style0 : FaceStyle)
    : M World bool :=
  w ← get_state;
  if existsb (same_font name0 style0) (font_cache w) then mret true
  else
    f_font ← new_TTF constructor;
    match f_font with
    | Some _ =>
        is_ready ← on_font f_font (t ← get_state; mret (ready t));
        if (is_ready : bool) then
          w ← get_state;
          let index := Z.of_nat (length (font_cache w)) in
          on_font f_font (modify (set_fonts_cache_index index));;
          modify (fun w =>
            set_font_cache
              (font_cache w ++ [{| name := name0; font := f_font; style := style0 |}]) w);;
          emit (LOG_D "Font %s added to cache at index %d and style %d."
                      [index; FaceStyle_to_int style0]);;
          mret true
        else
          delete_TTF f_font;;
          mret false
    | None =>
        emit (LOG_E "Unable to allocate memory." []);;
        mret false
    end.

(** [Fonts::add(name, style, filename)] *)
Definition add (name0 : string) (style0 : FaceStyle) (filename : string) : M World bool :=
  add_with (TTF_from_file filename) name0 style0.

(** [Fonts::add(name, style, buffer, size)] *)
Definition add_from_memory (name0 : string) (style0 : FaceStyle)
    (buffer : list Byte.byte) (size : Z) : M World bool :=
  add_with (TTF_from_memory buffer size) name0 style0.

(** The loop of [Fonts::clear] over the entries, [i] counting them. *)
Fixpoint clear_loop (all : bool) (i : Z) (entries : list FontEntry) : M World unit :=
  match entries with
  | [] => mret tt
  | entry :: rest =>
      (if all || bool_decide (i >= 5) then delete_TTF (font entry)
       else on_font (font entry) clear_cache);;
      clear_loop all (i + 1) rest
  end.

(** [Fonts::clear(bool all)]: the whole body is under [#if USE_EPUB_FONTS]. *)
Definition clear (all : bool) : M World unit :=
  if USE_EPUB_FONTS then
    w ← get_state;
    clear_loop all 0 (font_cache w);;
    modify (fun w => set_font_cache (resize (if all then 0%nat else 5%nat) (font_cache w)) w)
  else mret tt.

(** [Fonts::get_index] *)
Fixpoint get_index_loop (name0 : string) (style0 : FaceStyle) (idx : Z)
    (entries : list FontEntry) : Z :=
  match entries with
  | [] => -1
  | entry :: rest =>
      if bool_decide (name entry = name0) && bool_decide (style entry = style0) then idx
      else get_index_loop name0 style0 (to_int16 (idx + 1)) rest
  end.

Definition get_index (name0 : string) (style0 : FaceStyle) : M World Z :=
  w ← get_state;
  mret (get_index_loop name0 style0 0 (font_cache w)).

(** The conversion of the comparison [index >= font_cache.size()]: the
    signed 16-bit [index] is converted to the unsigned type of [size()]. *)
Definition to_size_t (x : Z) : Z := to_unsigned SIZE_T_BITS x.

(** [font_cache.at(i)], which throws [std::out_of_range] past the end. *)
Definition vector_at (l : list FontEntry) (i : Z) : M World FontEntry :=
  match l !! Z.to_nat i with
  | Some entry => mret entry
  | None => fail OutOfRange
  end.

(** [Fonts::get(int16_t index)] *)
Definition get (index : Z) : M World (option loc) :=
  w ← get_state;
  let size := Z.of_nat (length (font_cache w)) in
  if decide (to_size_t index >= size) then
    emit (LOG_E "Fonts.get(): Wrong index: %d vs size: %u" [index; size]);;
    entry ← vector_at (font_cache w) 0;
    mret (font entry)
  else
    entry ← vector_at (font_cache w) (to_size_t index);
    mret (font entry).

End Fonts_methods.

(* ===================================================================== *)
(** ** Vocabulary of the properties *)
(* ===================================================================== *)

Section Vocabulary.
Context `{Env}.

(** What FreeType delivers for [charcode] on a face as it is sized: the
    glyph index, the load, and the render of an outline.  This is the pure
    content of the miss path of [get_glyph_internal]. *)
Definition rasterize (f : FT_FaceRec) (charcode : Z) : option FT_GlyphSlot :=
  let glyph_index := FT_Get_Char_Index (handle f) charcode in
  if decide (glyph_index = 0) then None
  else
    match FT_Load_Glyph f glyph_index with
    | FT_Err _ => None
    | FT_Ok slot =>
        if format_is_bitmap slot then Some slot
        else
          match FT_Render_Glyph slot (bool_decide (screen_pixel_resolution = ONE_BIT)) with
          | FT_Ok rendered => Some rendered
          | FT_Err _ => None
          end
    end.

(** The miss path of [get_glyph_internal] from the point where the face is
    sized: the glyph index, the load, the render, the copy into the byte pool
    and the entry in the cache, under the key [current_size]. *)
Definition rasterize_and_store (charcode : Z) : M TTF (option BitmapGlyph) :=
  t ← get_state;
  match face t with
  | None => fail NullDeref
  | Some f =>
      let glyph_index := FT_Get_Char_Index (handle f) charcode in
      if decide (glyph_index = 0) then
        emit (LOG_E "Charcode not found in face: %d, font_index: %d"
                    [charcode; fonts_cache_index t]);;
        mret None
      else
        emit (Call_FT_Load_Glyph glyph_index);;
        match FT_Load_Glyph f glyph_index with
        | FT_Err _ =>
            emit (LOG_E "Unable to load glyph for charcode: %d" [charcode]);;
            mret None
        | FT_Ok slot =>
            pool_new_glyph;;
            rendered ← render_slot charcode slot;
            match rendered with
            | None => mret None
            | Some slot =>
                let size := bitmap_size slot in
                buff ← (if decide (size > 0)
                        then b ← byte_pool_alloc (to_uint16 size); mret (Some b)
                        else mret None);
                let glyph := glyph_of_slot slot buff in
                modify (fun t =>
                  set_cache (cache_store (cache t) (current_size t) charcode glyph) t);;
                mret (Some glyph)
            end
        end
  end.

(** The face [f] sized for pixel size [n]. *)
Definition sized (f : FT_FaceRec) (n : Z) : FT_FaceRec :=
  {| handle := handle f; char_height := Some (n * 64) |}.

(** FreeType accepts pixel size [n] on the resource [h]. *)
Definition size_accepted (h : nat) (n : Z) : Prop :=
  exists u, FT_Set_Char_Size h (n * 64) = FT_Ok u.

(** The bitmap of [slot] can be given room in the byte pool. *)
Definition fits_pool (slot : FT_GlyphSlot) : Prop :=
  bitmap_size slot <= 0 \/ to_uint16 (bitmap_size slot) <= BYTE_POOL_SIZE.



#[global] Instance fits_pool_dec (slot : FT_GlyphSlot) : Decision (fits_pool slot).
Proof. unfold fits_pool. apply _. Defined.


(** The invariant of a [TTF] object.
    - The face is sized as [current_size] says, once a size was set.
    - A cached glyph is the one FreeType delivers for its key, and its
      charcode has a glyph in the face.
    - The cursor of the byte pool is inside the front chunk. *)
Record TTF_inv (t : TTF) : Prop := {
  inv_sized : forall f,
    face t = Some f -> current_size t <> -1 ->
    char_height f = Some (current_size t * 64);
  inv_cached : forall f n charcode g,
    face t = Some f -> cache_find (cache t) n charcode = Some g -> n <> -1 ->
    exists slot, rasterize (sized f n) charcode = Some slot /\
                 g = glyph_of_slot slot (buffer g);
  inv_indexed : forall f n charcode g,
    face t = Some f -> cache_find (cache t) n charcode = Some g ->
    FT_Get_Char_Index (handle f) charcode <> 0;
  inv_cursor :
    byte_pools t = [] \/ 0 <= byte_pool_idx t <= BYTE_POOL_SIZE
}.






(** A glyph whose box [get_size] can measure in its 16-bit locals. *)
Definition measurable (g : BitmapGlyph) : Prop :=
  is_int16 (- yoff g) /\ is_int16 (height (dim g) + yoff g).

#[global] Instance measurable_dec (g : BitmapGlyph) : Decision (measurable g).
Proof. unfold measurable, is_int16. apply _. Defined.

(** Events that configure the face, and events that rasterize. *)
Definition is_set_char_size (e : Event) : bool :=
  match e with Call_FT_Set_Char_Size _ => true | _ => false end.
Definition is_rasterization (e : Event) : bool :=
  match e with Call_FT_Load_Glyph _ | Call_FT_Render_Glyph _ => true | _ => false end.
Definition reconfigures (tr : list Event) : bool := existsb is_set_char_size tr.
Definition rasterizes (tr : list Event) : bool := existsb is_rasterization tr.
Definition is_open_event (e : Event) : bool :=
  match e with Call_fopen _ | Call_FT_New_Memory_Face _ => true | _ => false end.
Definition opens_resource (tr : list Event) : bool := existsb is_open_event tr.


(** One allocation of a run: the state before, the size asked, the buffer
    returned and the state after. *)
Record AllocStep := {
  pool_before : TTF;
  asked : Z;
  returned : BufPtr;
  pool_after : TTF
}.

(** A run of [byte_pool_alloc] calls, with a record of each. *)
Fixpoint byte_pool_allocs (sizes : list Z) : M TTF (list AllocStep) :=
  match sizes with
  | [] => mret []
  | size :: rest =>
      t0 ← get_state;
      buff ← byte_pool_alloc size;
      t1 ← get_state;
      steps ← byte_pool_allocs rest;
      mret ({| pool_before := t0; asked := size; returned := buff; pool_after := t1 |} :: steps)
  end.

(** The allocation opened a chunk: a new chunk is at the front of the
    list. *)
Definition opened_chunk (s : AllocStep) : Prop :=
  byte_pools (pool_after s) = chunks_allocated (pool_before s) :: byte_pools (pool_before s).

(** The condition under which [byte_pool_alloc] opens a chunk. *)
Definition needs_chunk (s : AllocStep) : Prop :=
  byte_pools (pool_before s) = [] \/ byte_pool_idx (pool_before s) + asked s > BYTE_POOL_SIZE.

(** What one allocation of a run must satisfy. *)
Record alloc_ok (s : AllocStep) : Prop := {
  ok_fresh_iff : opened_chunk s <-> needs_chunk s;
  ok_fresh_cursor : needs_chunk s -> offset (returned s) = 0;
  ok_same_chunk : ~ needs_chunk s ->
    byte_pools (pool_after s) = byte_pools (pool_before s) /\
    offset (returned s) = byte_pool_idx (pool_before s);
  ok_bump : byte_pool_idx (pool_after s) = offset (returned s) + asked s;
  ok_front : head (byte_pools (pool_after s)) = Some (chunk (returned s));
  ok_inside : 0 <= offset (returned s) /\ offset (returned s) + asked s <= BYTE_POOL_SIZE;
  ok_cursor : 0 <= byte_pool_idx (pool_after s) <= BYTE_POOL_SIZE
}.

(** A source of a font: a file path or a buffer in memory. *)
Inductive Source :=
| FromFile (filename : string)
| FromMemory (buffer : list Byte.byte) (size : Z).

Definition add_source (name0 : string) (style0 : FaceStyle) (src : Source) : M World bool :=
  match src with
  | FromFile filename => add name0 style0 filename
  | FromMemory buffer size => add_from_memory name0 style0 buffer size
  end.

(** The constructor of [TTF] that [add] runs on a source. *)
Definition constructor_of (src : Source) : M TTF unit :=
  match src with
  | FromFile filename => TTF_from_file filename
  | FromMemory buffer size => TTF_from_memory buffer size
  end.

(** The font resource behind a source can be opened. *)
Definition source_opens (src : Source) : bool :=
  match src with
  | FromFile filename =>
      match read_font_file filename with
      | Contents bytes =>
          match FT_New_Memory_Face bytes (Z.of_nat (length bytes)) with
          | FT_Ok _ => true
          | FT_Err _ => false
          end
      | _ => false
      end
  | FromMemory buffer size =>
      match FT_New_Memory_Face buffer size with
      | FT_Ok _ => true
      | FT_Err _ => false
      end
  end.


(** The registry as [Fonts::add] builds it: every entry points to a live
    [TTF], no two entries to the same one. *)
Record Fonts_inv (w : World) : Prop := {
  inv_live : forall entry, entry ∈ font_cache w ->
    exists l t, font entry = Some l /\ heap w !! l = Some t;
  inv_distinct : NoDup (font <$> font_cache w)
}.


End Vocabulary.

(* ===================================================================== *)
(** ** A synthetic environment *)
(* ===================================================================== *)

Module Synthetic.

(** A face with known metrics: every printable ASCII character has a glyph,
    an outline whose advance at pixel size [n] is [n / 2 + glyph_index]
    pixels and whose box is [n / 2] wide and [n] high, two pixels of it
    under the baseline. *)
Definition char_index (_ : nat) (charcode : Z) : Z :=
  if decide (32 <= charcode <= 126) then charcode - 31 else 0.

Definition set_char_size (_ : nat) (char_height : Z) : FT_Result unit :=
  if decide (0 < char_height) then FT_Ok tt else FT_Err 23.

Definition load_glyph (f : FT_FaceRec) (glyph_index : Z) : FT_Result FT_GlyphSlot :=
  match char_height f with
  | None => FT_Err 36
  | Some h =>
      FT_Ok {| metrics_width := h / 2; metrics_height := h;
               format_is_bitmap := false;
               bitmap_pitch := 0; bitmap_rows := 0; bitmap_width := 0;
               bitmap_left := 0; bitmap_top := 0;
               advance_x := h / 2 + glyph_index * 64 |}
  end.

Definition render_glyph (slot : FT_GlyphSlot) (mono : bool) : FT_Result FT_GlyphSlot :=
  let w := Z.shiftr (metrics_width slot) 6 in
  let h := Z.shiftr (metrics_height slot) 6 in
  FT_Ok {| metrics_width := metrics_width slot; metrics_height := metrics_height slot;
           format_is_bitmap := true;
           bitmap_pitch := if mono then (w + 7) / 8 else w;
           bitmap_rows := h; bitmap_width := w;
           bitmap_left := 1; bitmap_top := h - 2;
           advance_x := advance_x slot |}.

Definition new_memory_face (buffer : list Byte.byte) (_ : Z) : FT_Result nat :=
  match buffer with
  | [] => FT_Err 2
  | b :: _ => FT_Ok (N.to_nat (Byte.to_N b))
  end.

Definition font_file (filename : string) : FileResult :=
  if decide (filename = "missing.otf") then CannotOpen
  else if decide (filename = "unreadable.otf") then CannotRead
  else if decide (filename = "broken.otf") then Contents []
  else Contents [Byte.x01; Byte.x02].

Definition env (epub_fonts : bool) (pool_size : Z) : Env :=
  {| FT_Get_Char_Index := char_index;
     FT_Set_Char_Size := set_char_size;
     FT_Load_Glyph := load_glyph;
     FT_Render_Glyph := render_glyph;
     FT_New_Memory_Face := new_memory_face;
     read_font_file := font_file;
     screen_pixel_resolution := THREE_BITS;
     BYTE_POOL_SIZE := pool_size;
     USE_EPUB_FONTS := epub_fonts;
     SIZE_T_BITS := 32;
     CHAR_IS_SIGNED := false |}.

Definition blank_page : Page :=
  {| compute_mode := DISPLAY; display_list := []; line_list := [];
     screen_is_full := false; pos := {| pos_x := 0; pos_y := 0 |};
     min_y := 0; max_x := 0; max_y := 0; min_x := 0;
     para_max_x := 0; para_min_x := 0; line_width := 0; glyphs_height := 0;
     para_indent := 0; top_margin := 0 |}.

Definition empty_world : World :=
  {| font_cache := []; heap := ∅; page := blank_page |}.

(** The state an outcome ends in, for a run that is known to finish. *)
Definition final {S A} (start : S) (o : Outcome S A) : S :=
  match o with Done _ s _ => s | Failed _ _ => start end.

Definition env0 : Env := env true 16384.

(** A face opened from memory under [env0]. *)
Definition face0 : TTF :=
  final TTF_raw (TTF_from_memory (H := env0) [Byte.x01] 1 TTF_raw).

(** The face after [get_glyph('a', 10)], and after [get_glyph('b', 12)]
    then. *)
Definition face_a : TTF :=
  final face0 (get_glyph (H := env0) 97 10 face0).

(** A registry of three faces, built by [Fonts::add], in a build with
    [USE_EPUB_FONTS] and in a build without it. *)
Definition three_fonts (e : Env) : World :=
  final empty_world
    ((add (H := e) "Drawings" NORMAL "drawings.otf";;
      add (H := e) "Default" NORMAL "regular.otf";;
      add (H := e) "Default" BOLD "bold.otf") empty_world).

Definition three_fonts_epub : World := three_fonts env0.



(** The C string "ab", a byte without a glyph, "c". *)
Definition caption : list Byte.byte := [Byte.x61; Byte.x62; Byte.xc8; Byte.x63].

End Synthetic.

(* ===================================================================== *)
(** ** The rest of the registry, and its caller in [Page] *)
(* ===================================================================== *)

(** The [std::string] made from [s.c_str()]: the characters before the first
    NUL. *)
Fixpoint c_str (s : string) : string :=
  match s with
  | EmptyString => EmptyString
  | String a rest => if Ascii.eqb a Ascii.zero then EmptyString else String a (c_str rest)
  end.

(** [s[i] = c] on a [std::string]; past the end nothing is modelled. *)
Fixpoint string_set (s : string) (i : nat) (c : Ascii.ascii) : string :=
  match s, i with
  | EmptyString, _ => EmptyString
  | String _ rest, O => String c rest
  | String a rest, S i' => String a (string_set rest i' c)
  end.

(** [static const char * font_names[7]] *)
Definition font_names : list string :=
  ["CASE"; "COND"; "LEIP"; "LUCE"; "MARR"; "MAYA"; "MVAL"].

(** The fields of [Page::Format] but [line_height_factor], a [float] that no
    function modelled here reads. *)
Record Format := {
  font_index : Z;
  font_size : Z;
  indent : Z;
  margin_left : Z; margin_right : Z; margin_top : Z; margin_bottom : Z;
  screen_left : Z; screen_right : Z; screen_top : Z; screen_bottom : Z;
  fmt_width : Z; fmt_height : Z;
  trim : bool;
  pre : bool;
  font_style : FaceStyle
}.

Definition set_font (index : Z) (style0 : FaceStyle) (fmt : Format) : Format :=
  {| font_index := index; font_size := font_size fmt; indent := indent fmt;
     margin_left := margin_left fmt; margin_right := margin_right fmt;
     margin_top := margin_top fmt; margin_bottom := margin_bottom fmt;
     screen_left := screen_left fmt; screen_right := screen_right fmt;
     screen_top := screen_top fmt; screen_bottom := screen_bottom fmt;
     fmt_width := fmt_width fmt; fmt_height := fmt_height fmt;
     trim := trim fmt; pre := pre fmt; font_style := style0 |}.

(** The entry is one for (name, style). *)
Definition entry_for (name0 : string) (style0 : FaceStyle) (e : FontEntry) : Prop :=
  name e = name0 /\ style e = style0.

(** The registry has, at position [index], an entry of style [style0]: what
    [Fonts::check(index, style0)] tests. *)
Definition style_at (w : World) (index : Z) (style0 : FaceStyle) : Prop :=
  0 <= index /\ exists e, font_cache w !! Z.to_nat index = Some e /\ style e = style0.

(** Some entry of the registry is for (name, style). *)
Definition registered (w : World) (name0 : string) (style0 : FaceStyle) : Prop :=
  exists e, e ∈ font_cache w /\ entry_for name0 style0 e.

(** Every entry of the registry points to a live face that is open, and no
    two entries to the same face: what a caller of [get] relies on. *)
Definition usable (w : World) : Prop :=
  Fonts_inv w /\
  forall e l t, e ∈ font_cache w -> font e = Some l -> heap w !! l = Some t ->
    face t <> None.

(** The faces [Fonts::setup] registers, in the order of its calls of [add]:
    name, style and file. *)
Definition setup_fonts (FONTS_FOLDER : string) : list (string * FaceStyle * string) :=
  [ ("Drawings", NORMAL, FONTS_FOLDER +:+ "/drawings.otf");
    ("Default", NORMAL, FONTS_FOLDER +:+ "/CrimsonPro-Regular.otf");
    ("Default", BOLD, FONTS_FOLDER +:+ "/CrimsonPro-Bold.otf");
    ("Default", ITALIC, FONTS_FOLDER +:+ "/CrimsonPro-Italic.otf");
    ("Default", BOLD_ITALIC, FONTS_FOLDER +:+ "/CrimsonPro-BoldItalic.otf");
    ("Chess1", NORMAL, ((FONTS_FOLDER +:+ "/") +:+ "CASE") +:+ "FONT.TTF");
    ("Chess2", NORMAL, ((FONTS_FOLDER +:+ "/") +:+ "COND") +:+ "FONT.TTF");
    ("Chess3", NORMAL, ((FONTS_FOLDER +:+ "/") +:+ "LEIP") +:+ "FONT.TTF");
    ("Chess4", NORMAL, ((FONTS_FOLDER +:+ "/") +:+ "LUCE") +:+ "FONT.TTF");
    ("Chess5", NORMAL, ((FONTS_FOLDER +:+ "/") +:+ "MARR") +:+ "FONT.TTF");
    ("Chess6", NORMAL, ((FONTS_FOLDER +:+ "/") +:+ "MAYA") +:+ "FONT.TTF");
    ("Chess7", NORMAL, ((FONTS_FOLDER +:+ "/") +:+ "MVAL") +:+ "FONT.TTF") ].

(** The (name, style) of an entry, and of a face to register. *)
Definition entry_key (e : FontEntry) : string * FaceStyle := (name e, style e).
Definition face_key (x : string * FaceStyle * string) : string * FaceStyle := (x.1.1, x.1.2).

Section More_methods.
Context `{Env}.

(** [font_cache[i]]: no bounds check; an index past the end is undefined
    behaviour, a fault in the model. *)
Definition vector_index (l : list FontEntry) (i : Z) : M World FontEntry :=
  match l !! Z.to_nat i with
  | Some entry => mret entry
  | None => fail NullDeref
  end.

(** [Fonts::get_name(int16_t index)]: the C string of the name of the
    entry. *)
Definition get_name (index : Z) : M World string :=
  w ← get_state;
  let size := Z.of_nat (length (font_cache w)) in
  if decide (to_size_t index >= size) then
    emit (LOG_E "Fonts.get(): Wrong index: %d vs size: %u" [index; size]);;
    entry ← vector_index (font_cache w) 0;
    mret (c_str (name entry))
  else
    entry ← vector_index (font_cache w) (to_size_t index);
    mret (c_str (name entry)).

(** [Fonts::check(int16_t index, FaceStyle style)] *)
Definition check (index : Z) (style0 : FaceStyle) : M World unit :=
  w ← get_state;
  entry ← vector_index (font_cache w) (to_size_t index);
  if decide (style entry ≠ style0) then emit (LOG_E "Hum... font_check failed" [])
  else mret tt.

(** [Fonts::clear_glyph_caches] *)
Fixpoint clear_glyph_caches_loop (entries : list FontEntry) : M World unit :=
  match entries with
  | [] => mret tt
  | entry :: rest =>
      on_font (font entry) clear_cache;;
      clear_glyph_caches_loop rest
  end.

Definition clear_glyph_caches : M World unit :=
  w ← get_state;
  clear_glyph_caches_loop (font_cache w).

(** The loop of [Fonts::setup] over [font_names]: [ches[5] = '1' + i], the
    file [FONTS_FOLDER "/" <name> "FONT.TTF"], and the early return. *)
Fixpoint setup_loop (FONTS_FOLDER : string) (names : list string) (i : Z) (ches : string)
    : M World bool :=
  match names with
  | [] => mret true
  | font_name :: rest =>
      let ches := string_set ches 5 (Ascii.ascii_of_nat (Z.to_nat (49 + i))) in
      let chess := ((FONTS_FOLDER +:+ "/") +:+ font_name) +:+ "FONT.TTF" in
      added ← add ches NORMAL chess;
      if (added : bool) then setup_loop FONTS_FOLDER rest (i + 1) ches
      else mret false
  end.

(** [Fonts::setup].  [FONTS_FOLDER] is a macro of a header that is not part
    of the sources at hand. *)
Definition setup (FONTS_FOLDER : string) : M World bool :=
  emit (LOG_D "Fonts initialization" []);;
  clear true;;
  let def := "Default" in
  let draw := "Drawings" in
  let ches := "Chess " in
  let drawings := FONTS_FOLDER +:+ "/drawings.otf" in
  let normal := FONTS_FOLDER +:+ "/CrimsonPro-Regular.otf" in
  let bold := FONTS_FOLDER +:+ "/CrimsonPro-Bold.otf" in
  let italic := FONTS_FOLDER +:+ "/CrimsonPro-Italic.otf" in
  let bold_italic := FONTS_FOLDER +:+ "/CrimsonPro-BoldItalic.otf" in
  added ← add draw NORMAL drawings;
  if negb added then mret false else
  added ← add def NORMAL normal;
  if negb added then mret false else
  added ← add def BOLD bold;
  if negb added then mret false else
  added ← add def ITALIC italic;
  if negb added then mret false else
  added ← add def BOLD_ITALIC bold_italic;
  if negb added then mret false else
  setup_loop FONTS_FOLDER font_names 0 ches.

(** [Page::reset_font_index(Format & fmt, Fonts::FaceStyle style)]: the
    format it leaves in [fmt]. *)
Definition reset_font_index (fmt : Format) (style0 : FaceStyle) : M World Format :=
  if decide (style0 ≠ font_style fmt) then
    font_name ← get_name (font_index fmt);
    idx ← get_index font_name style0;
    idx ← (if decide (idx = -1) then get_index "Default" style0 else mret idx);
    if decide (idx = -1) then mret (set_font 1 NORMAL fmt)
    else mret (set_font idx style0 fmt)
  else mret fmt.

(** A run of [add] calls from files that stops at the first one that
    returns false. *)
Fixpoint add_all (l : list (string * FaceStyle * string)) : M World bool :=
  match l with
  | [] => mret true
  | (name0, style0, filename) :: rest =>
      added ← add name0 style0 filename;
      if (added : bool) then add_all rest else mret false
  end.

(** The faces of a list up to the first whose file does not open. *)
Fixpoint opened_prefix (l : list (string * FaceStyle * string))
    : list (string * FaceStyle * string) :=
  match l with
  | [] => []
  | x :: rest => if source_opens (FromFile x.2) then x :: opened_prefix rest else []
  end.

End More_methods.

(* ===================================================================== *)
(** ** The layout of the byte pool *)
(* ===================================================================== *)

Section Pool_layout.
Context `{Env}.





End Pool_layout.

(* ===================================================================== *)
(** ** The menu: [MenuViewer::event] *)
(* ===================================================================== *)

Module MenuViewer.

(** The enumerators of [EventMgr::KeyEvent] that the switch of [event]
    names. *)
Inductive KeyEvent := NONE | NEXT | PREV | DBL_NEXT | DBL_PREV | SELECT | DBL_SELECT.

(** [struct EntryLoc { Pos pos; Dim dim; }] *)
Record EntryLoc := {
  loc_pos : Pos;
  loc_dim : Dim
}.

(** [struct MenuEntry]: the icon, the caption and [func], a pointer to a
    function without arguments; it is the name of the function, null is
    [None]. *)
Record MenuEntry := {
  icon : nat;
  caption : string;
  func : option nat
}.

(** The data members of [MenuViewer]: [entry_locs] is the array of
    [MAX_MENU_ENTRY] locations, [menu] the array the pointer [menu] points
    to. *)
Record t := {
  current_entry_index : Z;        (* uint8_t *)
  max_index : Z;                  (* uint8_t *)
  icon_height : Z; text_height : Z; line_height : Z; region_height : Z;
  icon_ypos : Z; text_ypos : Z;
  entry_locs : list EntryLoc;
  menu : list MenuEntry
}.

Definition set_current_entry_index (i : Z) (v : t) : t :=
  {| current_entry_index := i; max_index := max_index v;
     icon_height := icon_height v; text_height := text_height v;
     line_height := line_height v; region_height := region_height v;
     icon_ypos := icon_ypos v; text_ypos := text_ypos v;
     entry_locs := entry_locs v; menu := menu v |}.

(** What [event] asks of its collaborators: the calls of [page] and the call
    of the function of a menu entry. *)
Inductive Call :=
| page_start
| page_clear_highlight (d : Dim) (p : Pos)
| page_put_highlight (d : Dim) (p : Pos)
| page_clear_region (d : Dim) (p : Pos)
| page_put_str_at (txt : string) (p : Pos) (font_index font_size : Z)
| page_paint (clear_screen : bool)
| menu_func (f : nat).

(** [Dim(w, h)] and [Pos(x, y)]: the arguments are converted to the 16-bit
    fields. *)
Definition mkDim (w h : Z) : Dim := {| width := to_uint16 w; height := to_uint16 h |}.
Definition mkPos (x y : Z) : Pos := {| pos_x := to_int16 x; pos_y := to_int16 y |}.

(** The rectangle drawn around the entry at [loc]. *)
Definition highlight_dim (loc : EntryLoc) : Dim :=
  mkDim (width (loc_dim loc) + 8) (height (loc_dim loc) + 8).
Definition highlight_pos (loc : EntryLoc) : Pos :=
  mkPos (pos_x (loc_pos loc) - 4) (pos_y (loc_pos loc) - 4).

(** The index after the [switch] for the keys PREV and NEXT. *)
Definition step_index (key : KeyEvent) (v : t) : Z :=
  match key with
  | PREV =>
      if decide (current_entry_index v > 0) then current_entry_index v - 1
      else max_index v
  | NEXT =>
      if decide (current_entry_index v < max_index v) then current_entry_index v + 1
      else 0
  | _ => current_entry_index v
  end.

(** [MenuViewer::event(key)]: the value returned, the object after the call
    and the calls made, in order; [None] when an array is read past its
    end.  [Screen::WIDTH] is a constant of a header that is not part of the
    sources at hand. *)
Definition event (SCREEN_WIDTH : Z) (key : KeyEvent) (v : t)
    : option (bool * t * list Call) :=
  let old_index := current_entry_index v in
  match key with
  | DBL_PREV | DBL_NEXT | NONE => Some (false, v, [page_start])
  | DBL_SELECT => Some (true, v, [page_start])
  | SELECT =>
      entry ← menu v !! Z.to_nat (current_entry_index v);
      Some (false, v,
            page_start :: match func entry with Some f => [menu_func f] | None => [] end)
  | PREV | NEXT =>
      let v' := set_current_entry_index (step_index key v) v in
      if decide (current_entry_index v' ≠ old_index) then
        old_loc ← entry_locs v' !! Z.to_nat old_index;
        new_loc ← entry_locs v' !! Z.to_nat (current_entry_index v');
        entry ← menu v' !! Z.to_nat (current_entry_index v');
        Some (false, v',
              [ page_start;
                page_clear_highlight (highlight_dim old_loc) (highlight_pos old_loc);
                page_put_highlight (highlight_dim new_loc) (highlight_pos new_loc);
                page_clear_region (mkDim SCREEN_WIDTH (text_height v'))
                                  (mkPos 0 (text_ypos v' - line_height v'));
                page_put_str_at (caption entry) (mkPos 10 (text_ypos v')) 1 12;
                page_paint false ])
      else Some (false, v', [page_start; page_paint false])
  end.

(** [n] presses of the same key. *)
Fixpoint presses (SCREEN_WIDTH : Z) (key : KeyEvent) (n : nat) (v : t) : option t :=
  match n with
  | O => Some v
  | S n' =>
      r ← event SCREEN_WIDTH key v;
      presses SCREEN_WIDTH key n' r.1.2
  end.

(** The object as [show] leaves it on a menu that is not empty: the index
    is at most [max_index], and the arrays have an element for every index
    up to it. *)
Definition wf (v : t) : Prop :=
  0 <= current_entry_index v <= max_index v /\
  max_index v < Z.of_nat (length (entry_locs v)) /\
  max_index v < Z.of_nat (length (menu v)).

End MenuViewer.


(* ===================================================================== *)
(** ** More synthetic environments and states *)
(* ===================================================================== *)

Module Scenarios.
Import Synthetic.

(** FreeType as in [env0], with a renderer that refuses every outline. *)
Definition env_no_render : Env :=
  {| FT_Get_Char_Index := char_index;
     FT_Set_Char_Size := set_char_size;
     FT_Load_Glyph := load_glyph;
     FT_Render_Glyph := fun _ _ => FT_Err 19;
     FT_New_Memory_Face := new_memory_face;
     read_font_file := font_file;
     screen_pixel_resolution := THREE_BITS;
     BYTE_POOL_SIZE := 16384;
     USE_EPUB_FONTS := true;
     SIZE_T_BITS := 32;
     CHAR_IS_SIGNED := false |}.

(** A face opened under it and sized for ten pixels. *)
Definition face_no_render : TTF :=
  let t := final TTF_raw (TTF_from_memory (H := env_no_render) [Byte.x01] 1 TTF_raw) in
  final t (set_font_size (H := env_no_render) 10 t).

(** The format of a paragraph in the regular default face. *)
Definition body_format : Format :=
  {| font_index := 1; font_size := 12; indent := 0;
     margin_left := 0; margin_right := 0; margin_top := 0; margin_bottom := 0;
     screen_left := 10; screen_right := 10; screen_top := 10; screen_bottom := 0;
     fmt_width := 0; fmt_height := 0; trim := true; pre := false;
     font_style := NORMAL |}.

(** A menu of three entries as [show] lays it out, the second one with a
    function, the first one current. *)
Definition three_entries : MenuViewer.t :=
  {| MenuViewer.current_entry_index := 0; MenuViewer.max_index := 2;
     MenuViewer.icon_height := 60; MenuViewer.text_height := 20;
     MenuViewer.line_height := 25; MenuViewer.region_height := 100;
     MenuViewer.icon_ypos := 70; MenuViewer.text_ypos := 100;
     MenuViewer.entry_locs :=
       [ {| MenuViewer.loc_pos := {| pos_x := 10; pos_y := 10 |};
            MenuViewer.loc_dim := {| width := 50; height := 60 |} |};
         {| MenuViewer.loc_pos := {| pos_x := 70; pos_y := 10 |};
            MenuViewer.loc_dim := {| width := 50; height := 60 |} |};
         {| MenuViewer.loc_pos := {| pos_x := 130; pos_y := 10 |};
            MenuViewer.loc_dim := {| width := 50; height := 60 |} |} ];
     MenuViewer.menu :=
       [ {| MenuViewer.icon := 0%nat; MenuViewer.caption := "Return"; MenuViewer.func := None |};
         {| MenuViewer.icon := 3%nat; MenuViewer.caption := "New game";
            MenuViewer.func := Some 1%nat |};
         {| MenuViewer.icon := 7%nat; MenuViewer.caption := "Power off";
            MenuViewer.func := Some 2%nat |} ] |}.


End Scenarios.
(* ===================================================================== *)
(** * Properties *)
(* ===================================================================== *)

(** Unfolding of the operations of [M]. *)
Ltac exec :=
  unfold mbind, M_bind, mret, M_ret, get_state, modify, emit, fail; simpl.

(* --------------------------------------------------------------------- *)
(** ** Fixed-width conversions *)
(* --------------------------------------------------------------------- *)

Lemma to_uint16_id x : is_uint16 x -> to_uint16 x = x.
Proof.
  unfold is_uint16, to_uint16, to_unsigned. intros H.
  apply Z.mod_small. change (2 ^ 16) with 65536. lia.
Qed.

Lemma to_int16_id x : is_int16 x -> to_int16 x = x.
Proof.
  unfold is_int16, to_int16, to_signed. intros H.
  change (2 ^ (16 - 1)) with 32768. change (2 ^ 16) with 65536.
  rewrite Z.mod_small by lia. lia.
Qed.

Lemma to_uint16_range x : is_uint16 (to_uint16 x).
Proof.
  unfold is_uint16, to_uint16, to_unsigned. change (2 ^ 16) with 65536.
  pose proof (Z.mod_pos_bound x 65536). lia.
Qed.

Lemma to_int16_range x : is_int16 (to_int16 x).
Proof.
  unfold is_int16, to_int16, to_signed.
  change (2 ^ (16 - 1)) with 32768. change (2 ^ 16) with 65536.
  pose proof (Z.mod_pos_bound (x + 32768) 65536). lia.
Qed.


(** Reading the state and going on. *)
Lemma bind_get_state {S A} (k : S -> M S A) (s : S) :
  (get_state ≫= k) s = k s s.
Proof.
  unfold mbind, M_bind, get_state. destruct (k s s); reflexivity.
Qed.

(* --------------------------------------------------------------------- *)
(** ** [adjust_font_style] *)
(* --------------------------------------------------------------------- *)

(** Each block touches one component of the style only. *)
Lemma font_style_block_bold font_style style :
  is_bold (font_style_block font_style style) = is_bold style.
Proof. destruct font_style, style; reflexivity. Qed.

Lemma font_weight_block_italic font_weight style :
  is_italic (font_weight_block font_weight style) = is_italic style.
Proof. destruct font_weight, style; reflexivity. Qed.

Lemma style_components s1 s2 :
  is_bold s1 = is_bold s2 -> is_italic s1 = is_italic s2 -> s1 = s2.
Proof. destruct s1, s2; simpl; intros; congruence. Qed.

(** C2. [adjust_font_style] applies the fixed truth table: a [font_style] of
    ITALIC maps NORMAL to ITALIC and BOLD to BOLD_ITALIC, a [font_style] of
    NORMAL maps ITALIC to NORMAL and BOLD_ITALIC to BOLD, a [font_weight] of
    BOLD maps NORMAL to BOLD and ITALIC to BOLD_ITALIC, a [font_weight] of
    NORMAL maps BOLD to NORMAL and BOLD_ITALIC to ITALIC (each for every
    value of the other argument, whose own effect is the one of its block);
    the italic component of the result depends on [font_style] only and the
    bold component on [font_weight] only, and the two blocks give the same
    result in either order.  In particular (NORMAL, ITALIC, BOLD) gives
    BOLD_ITALIC and (BOLD_ITALIC, NORMAL, NORMAL) gives NORMAL. *)
Theorem adjust_font_style_truth_table :
  (* the italic block, whatever the weight block then does *)
  (forall fw, adjust_font_style NORMAL ITALIC fw = font_weight_block fw ITALIC) /\
  (forall fw, adjust_font_style BOLD ITALIC fw = font_weight_block fw BOLD_ITALIC) /\
  (forall fw, adjust_font_style ITALIC NORMAL fw = font_weight_block fw NORMAL) /\
  (forall fw, adjust_font_style BOLD_ITALIC NORMAL fw = font_weight_block fw BOLD) /\
  (* the weight block, whatever the italic block did before *)
  (forall fs, adjust_font_style NORMAL fs BOLD = font_style_block fs BOLD) /\
  (forall fs, adjust_font_style ITALIC fs BOLD = font_style_block fs BOLD_ITALIC) /\
  (forall fs, adjust_font_style BOLD fs NORMAL = font_style_block fs NORMAL) /\
  (forall fs, adjust_font_style BOLD_ITALIC fs NORMAL = font_style_block fs ITALIC) /\
  (* the tables of the two blocks *)
  font_style_block ITALIC NORMAL = ITALIC /\
  font_style_block ITALIC BOLD = BOLD_ITALIC /\
  font_style_block NORMAL ITALIC = NORMAL /\
  font_style_block NORMAL BOLD_ITALIC = BOLD /\
  font_weight_block BOLD NORMAL = BOLD /\
  font_weight_block BOLD ITALIC = BOLD_ITALIC /\
  font_weight_block NORMAL BOLD = NORMAL /\
  font_weight_block NORMAL BOLD_ITALIC = ITALIC /\
  (* independence of the two components *)
  (forall style fs fw,
     is_italic (adjust_font_style style fs fw) = is_italic (font_style_block fs style) /\
     is_bold (adjust_font_style style fs fw) = is_bold (font_weight_block fw style)) /\
  (* the result is a value of the four-way enumeration in either order *)
  (forall style fs fw,
     adjust_font_style style fs fw = font_style_block fs (font_weight_block fw style)) /\
  adjust_font_style NORMAL ITALIC BOLD = BOLD_ITALIC /\
  adjust_font_style BOLD_ITALIC NORMAL NORMAL = NORMAL.
Proof.
  unfold adjust_font_style.
  repeat split; intros;
    repeat match goal with x : FaceStyle |- _ => destruct x end;
    reflexivity.
Qed.

(* --------------------------------------------------------------------- *)
(** ** The byte pool *)
(* --------------------------------------------------------------------- *)

Section BytePool.
Context `{Env}.

Lemma cons_neq_self {A} (x : A) (l : list A) : l <> x :: l.
Proof.
  intros E. apply (f_equal length) in E. simpl in E. lia.
Qed.

(** One allocation, from a pool whose cursor is inside the front chunk. *)
Lemma byte_pool_alloc_step (t : TTF) (size : Z) :
  BYTE_POOL_SIZE <= 65535 ->
  0 <= size <= BYTE_POOL_SIZE ->
  byte_pools t = [] \/ 0 <= byte_pool_idx t <= BYTE_POOL_SIZE ->
  exists buff t' tr,
    byte_pool_alloc size t = Done buff t' tr /\
    alloc_ok {| pool_before := t; asked := size; returned := buff; pool_after := t' |} /\
    face t' = face t /\ cache t' = cache t /\ current_size t' = current_size t /\
    fonts_cache_index t' = fonts_cache_index t.
Proof.
  intros Hmax Hsize Hcur.
  unfold byte_pool_alloc.
  destruct (decide (size > BYTE_POOL_SIZE)) as [Hbig|_]; [lia|].
  unfold mbind, M_bind, get_state.
  destruct (decide (byte_pools t = [] \/ byte_pool_idx t + size > BYTE_POOL_SIZE))
    as [Hnew|Hold].
  - (* a chunk is opened *)
    simpl.
    eexists _, _, _. split; [reflexivity|].
    split; [|repeat split; reflexivity].
    split; unfold opened_chunk, needs_chunk; simpl; try tauto.
    + rewrite to_uint16_id by (unfold is_uint16; lia). lia.
    + lia.
    + rewrite to_uint16_id by (unfold is_uint16; lia). lia.
  - (* the front chunk has room *)
    assert (Hne : byte_pools t <> []) by tauto.
    assert (Hroom : byte_pool_idx t + size <= BYTE_POOL_SIZE) by (apply Z.le_ngt; intros ?; apply Hold; right; lia).
    destruct Hcur as [Hempty|Hidx]; [contradiction|].
    simpl. destruct (byte_pools t) as [|front rest] eqn:Hpools; [contradiction|].
    simpl.
    eexists _, _, _. split; [reflexivity|].
    split; [|repeat split; reflexivity].
    split; unfold opened_chunk, needs_chunk; simpl; rewrite ?Hpools.
    + split; [|intros [?|?]; [discriminate|lia]].
      intros E. exfalso. exact (cons_neq_self _ _ E).
    + intros [?|?]; [discriminate|lia].
    + intros _. split; reflexivity.
    + rewrite to_uint16_id by (unfold is_uint16; lia). reflexivity.
    + reflexivity.
    + lia.
    + rewrite to_uint16_id by (unfold is_uint16; lia). lia.
Qed.

(** C8. For every run of byte-pool allocations whose sizes are at most
    [BYTE_POOL_SIZE], started from a pool that is empty or whose cursor is
    inside its front chunk: the run finishes, and each allocation of it bumps
    the cursor by the size asked, opens a chunk (cursor back to 0) exactly
    when the pool is empty or the cursor plus the size would exceed the chunk
    size, returns a buffer that lies inside the front chunk, and leaves the
    cursor at most at the chunk size. *)
Theorem byte_pool_allocs_ok (sizes : list Z) (t : TTF) :
  BYTE_POOL_SIZE <= 65535 ->
  Forall (fun size => 0 <= size <= BYTE_POOL_SIZE) sizes ->
  byte_pools t = [] \/ 0 <= byte_pool_idx t <= BYTE_POOL_SIZE ->
  exists steps t' tr,
    byte_pool_allocs sizes t = Done steps t' tr /\
    asked <$> steps = sizes /\
    Forall alloc_ok steps.
Proof.
  intros Hmax Hsizes. revert t.
  induction Hsizes as [|size rest Hsize Hrest IH]; intros t Hcur.
  - exists [], t, []. repeat split; constructor.
  - destruct (byte_pool_alloc_step t size Hmax Hsize Hcur)
      as (buff & t1 & tr1 & Hrun & Hok & _).
    destruct (IH t1) as (steps & t2 & tr2 & Hruns & Hasked & Hall).
    { right. exact (ok_cursor _ Hok). }
    simpl. unfold mbind, M_bind, get_state.
    rewrite Hrun. simpl. rewrite Hruns. simpl.
    eexists _, _, _. split; [reflexivity|].
    split.
    + rewrite fmap_cons. simpl. f_equal. exact Hasked.
    + constructor; assumption.
Qed.

End BytePool.

(* --------------------------------------------------------------------- *)
(** ** [get_glyph]: the paths that return null *)
(* --------------------------------------------------------------------- *)

Section NullPaths.
Context `{Env}.

Lemma clear_cache_run (t : TTF) :
  exists t', clear_cache t = Done tt t' [] /\
    face t' = face t /\ current_size t' = current_size t /\
    memory_font t' = memory_font t /\
    fonts_cache_index t' = fonts_cache_index t /\
    cache t' = ∅ /\ byte_pools t' = [].
Proof. eexists. split; [reflexivity|]. repeat split. Qed.

Lemma clear_face_run (t : TTF) :
  exists t', clear_face t = Done tt t' [] /\
    face t' = None /\ current_size t' = -1 /\ cache t' = ∅ /\ byte_pools t' = [].
Proof. eexists. split; [reflexivity|]. repeat split. Qed.

Lemma set_font_face_from_memory_failed (buffer : list Byte.byte) (size error : Z) (t : TTF) :
  FT_New_Memory_Face buffer size = FT_Err error ->
  exists t' tr, set_font_face_from_memory buffer size t = Done false t' tr /\ face t' = None.
Proof.
  intros Herr. unfold set_font_face_from_memory. exec.
  destruct (decide (face t <> None)) as [Hf|Hf]; simpl; rewrite Herr; simpl.
  - eexists _, _. split; reflexivity.
  - eexists _, _. split; [reflexivity|].
    destruct (face t); [exfalso; apply Hf; discriminate|reflexivity].
Qed.

(** C10. On a face whose font resource is not open ([face] is null),
    [get_glyph] returns null for every charcode and pixel size, emits nothing
    (no FreeType call, so no rasterization) and leaves the whole object, its
    glyph cache included, as it was.  [clear_face] leaves the face in that
    state, and so does a constructor whose load failed. *)
Theorem get_glyph_face_not_open (charcode glyph_size : Z) :
  (forall t, face t = None -> get_glyph charcode glyph_size t = Done None t []) /\
  (forall t, exists t',
     clear_face t = Done tt t' [] /\
     get_glyph charcode glyph_size t' = Done None t' []) /\
  (forall buffer size error,
     FT_New_Memory_Face buffer size = FT_Err error ->
     exists t' tr,
       TTF_from_memory buffer size TTF_raw = Done tt t' tr /\
       get_glyph charcode glyph_size t' = Done None t' []).
Proof.
  assert (Hnull : forall t, face t = None ->
            get_glyph charcode glyph_size t = Done None t []).
  { intros t Hface. unfold get_glyph, get_glyph_internal. exec.
    rewrite Hface. reflexivity. }
  split; [exact Hnull|]. split.
  - intros t. destruct (clear_face_run t) as (t' & Hrun & Hface & _).
    exists t'. split; [exact Hrun|]. apply Hnull, Hface.
  - intros buffer size error Herr.
    destruct (set_font_face_from_memory_failed buffer size error
                (set_face None TTF_raw) Herr) as (t' & tr & Hrun & Hface).
    unfold TTF_from_memory. exec. rewrite Hrun. simpl.
    eexists _, _. split; [reflexivity|]. apply Hnull. exact Hface.
Qed.

(** The state and the events after the statement
    [if (current_size != glyph_size) set_font_size(glyph_size);]
    on an open face. *)
Lemma size_step (t : TTF) (f : FT_FaceRec) (glyph_size : Z) :
  face t = Some f ->
  exists b t1 tr1,
    (if decide (current_size t <> glyph_size)
     then set_font_size glyph_size else mret true) t = Done b t1 tr1 /\
    cache t1 = cache t /\ byte_pools t1 = byte_pools t /\
    byte_pool_idx t1 = byte_pool_idx t /\
    fonts_cache_index t1 = fonts_cache_index t /\
    bitmap_glyph_pool t1 = bitmap_glyph_pool t /\
    (exists f1, face t1 = Some f1 /\ handle f1 = handle f) /\
    (reconfigures tr1 = true <-> current_size t <> glyph_size) /\
    rasterizes tr1 = false /\
    ((current_size t = glyph_size \/ size_accepted (handle f) glyph_size) ->
     current_size t1 = glyph_size /\
     (current_size t = glyph_size -> t1 = t) /\
     (current_size t <> glyph_size -> face t1 = Some (sized f glyph_size))) /\
    (t1 = t \/ (current_size t1 = glyph_size /\ face t1 = Some (sized f glyph_size))).
Proof.
  intros Hface.
  destruct (decide (current_size t <> glyph_size)) as [Hne|Heq].
  - unfold set_font_size. exec. rewrite Hface.
    destruct (FT_Set_Char_Size (handle f) (glyph_size * 64)) as [u|err] eqn:Hset; simpl.
    + eexists _, _, _. split; [reflexivity|]. simpl.
      split; [reflexivity|]. split; [reflexivity|]. split; [reflexivity|].
      split; [reflexivity|]. split; [reflexivity|].
      split; [eexists; split; reflexivity|].
      split; [tauto|]. split; [reflexivity|].
      split; [|right; split; reflexivity].
      intros _. split; [reflexivity|]. split; [intros; contradiction|reflexivity].
    + eexists _, _, _. split; [reflexivity|]. simpl.
      split; [reflexivity|]. split; [reflexivity|]. split; [reflexivity|].
      split; [reflexivity|]. split; [reflexivity|].
      split; [eexists; split; [exact Hface|reflexivity]|].
      split; [tauto|]. split; [reflexivity|].
      split; [|left; reflexivity].
      intros [Heq|[u Hu]]; [contradiction|congruence].
  - apply dec_stable in Heq.
    exists true, t, []. split; [reflexivity|].
    split; [reflexivity|]. split; [reflexivity|]. split; [reflexivity|].
    split; [reflexivity|]. split; [reflexivity|].
    split; [eexists; split; [exact Hface|reflexivity]|].
    split; [simpl; split; [discriminate|intros; contradiction]|].
    split; [reflexivity|].
    split; [|left; reflexivity].
    intros _. split; [exact Heq|]. split; [reflexivity|intros; contradiction].
Qed.

(** C7. For every charcode that has no glyph in the face (FreeType reports
    glyph index 0), [get_glyph] on the open face returns null, the last
    thing it does is to log the miss, it rasterizes nothing, and the glyph
    cache and the byte pool are as before the call. *)
Theorem get_glyph_unknown_charcode (t : TTF) (f : FT_FaceRec) (charcode glyph_size : Z) :
  TTF_inv t ->
  face t = Some f ->
  FT_Get_Char_Index (handle f) charcode = 0 ->
  exists t' tr,
    get_glyph charcode glyph_size t =
      Done None t'
        (tr ++ [LOG_E "Charcode not found in face: %d, font_index: %d"
                      [charcode; fonts_cache_index t]]) /\
    rasterizes tr = false /\
    cache t' = cache t /\
    byte_pools t' = byte_pools t /\ byte_pool_idx t' = byte_pool_idx t.
Proof.
  intros Hinv Hface Hindex.
  unfold get_glyph, get_glyph_internal.
  unfold mbind at 1. unfold M_bind at 1. unfold get_state at 1.
  rewrite Hface.
  destruct (cache_find (cache t) glyph_size charcode) as [g|] eqn:Hfind.
  { exfalso. exact (inv_indexed t Hinv f _ _ _ Hface Hfind Hindex). }
  destruct (size_step t f glyph_size Hface)
    as (b & t1 & tr1 & Hstep & Hcache & Hpools & Hidx & Hfci & _ & (f1 & Hf1 & Hh1) & _ & Hras & _).
  unfold mbind at 1. unfold M_bind at 1. rewrite Hstep.
  exec. rewrite Hf1, Hh1.
  destruct (decide (FT_Get_Char_Index (handle f) charcode = 0)) as [_|Hn]; [|contradiction].
  simpl. rewrite Hfci.
  exists t1, tr1. repeat split; assumption.
Qed.

End NullPaths.

(* --------------------------------------------------------------------- *)
(** ** [get_glyph]: the cache *)
(* --------------------------------------------------------------------- *)

Section GlyphCache.
Context `{Env}.

Lemma cache_find_store (c : GlyphsCache) (n charcode : Z) (g : BitmapGlyph) :
  cache_find (cache_store c n charcode g) n charcode = Some g.
Proof.
  unfold cache_find, cache_store.
  rewrite lookup_insert_eq. apply lookup_insert_eq.
Qed.

Lemma cache_find_store_ne (c : GlyphsCache) (n charcode n' charcode' : Z) (g : BitmapGlyph) :
  (n', charcode') <> (n, charcode) ->
  cache_find (cache_store c n charcode g) n' charcode' = cache_find c n' charcode'.
Proof.
  intros Hne. unfold cache_find, cache_store.
  destruct (decide (n = n')) as [->|Hn].
  - rewrite lookup_insert_eq.
    assert (Hc : charcode <> charcode') by (intros ->; apply Hne; reflexivity).
    rewrite lookup_insert_ne by exact Hc.
    destruct (c !! n'); reflexivity.
  - rewrite lookup_insert_ne by exact Hn. reflexivity.
Qed.

Lemma get_glyph_internal_unfold (charcode glyph_size : Z) (t : TTF) :
  get_glyph_internal charcode glyph_size t =
  match face t with
  | None => Done None t []
  | Some _ =>
      match cache_find (cache t) glyph_size charcode with
      | Some glyph => Done (Some glyph) t []
      | None =>
          ((if decide (current_size t <> glyph_size)
            then set_font_size glyph_size else mret true);;
           rasterize_and_store charcode) t
      end
  end.
Proof.
  unfold get_glyph_internal, rasterize_and_store.
  rewrite bind_get_state.
  destruct (face t); [|reflexivity].
  destruct (cache_find (cache t) glyph_size charcode); reflexivity.
Qed.

(** An allocation that has room leaves everything but the pool alone. *)
Lemma byte_pool_alloc_frame (t : TTF) (size : Z) :
  0 <= size <= BYTE_POOL_SIZE ->
  byte_pools t = [] \/ 0 <= byte_pool_idx t <= BYTE_POOL_SIZE ->
  exists buff t' tr,
    byte_pool_alloc size t = Done buff t' tr /\
    face t' = face t /\ cache t' = cache t /\ current_size t' = current_size t /\
    fonts_cache_index t' = fonts_cache_index t /\
    (byte_pools t' = [] \/ 0 <= byte_pool_idx t' <= BYTE_POOL_SIZE) /\
    reconfigures tr = false /\ rasterizes tr = false.
Proof.
  intros Hsize Hcur.
  assert (Hwrap : forall x, 0 <= x <= BYTE_POOL_SIZE -> 0 <= to_uint16 x <= BYTE_POOL_SIZE).
  { intros x Hx. unfold to_uint16, to_unsigned. change (2 ^ 16) with 65536.
    pose proof (Z.mod_pos_bound x 65536). pose proof (Z.mod_le x 65536). lia. }
  unfold byte_pool_alloc.
  destruct (decide (size > BYTE_POOL_SIZE)) as [Hbig|_]; [lia|].
  unfold mbind, M_bind, get_state.
  destruct (decide (byte_pools t = [] \/ byte_pool_idx t + size > BYTE_POOL_SIZE))
    as [Hnew|Hold].
  - simpl. eexists _, _, _. split; [reflexivity|]. simpl.
    repeat split; try reflexivity. right. apply Hwrap. lia.
  - assert (Hne : byte_pools t <> []) by tauto.
    destruct Hcur as [Hempty|Hidx]; [contradiction|].
    simpl. destruct (byte_pools t) as [|front rest] eqn:Hpools; [contradiction|].
    simpl. eexists _, _, _. split; [reflexivity|]. simpl.
    repeat split; try reflexivity. right. apply Hwrap.
    split; [lia|]. apply Z.le_ngt. intros ?. apply Hold. right. lia.
Qed.

Lemma byte_pool_alloc_abort (t : TTF) (size : Z) :
  size > BYTE_POOL_SIZE ->
  exists tr, byte_pool_alloc size t = Failed Abort tr.
Proof.
  intros Hbig. unfold byte_pool_alloc.
  destruct (decide (size > BYTE_POOL_SIZE)); [|contradiction].
  eexists. reflexivity.
Qed.

(** What the miss path does once the face is sized. *)
Lemma rasterize_and_store_run (t : TTF) (f : FT_FaceRec) (charcode : Z) :
  face t = Some f ->
  byte_pools t = [] \/ 0 <= byte_pool_idx t <= BYTE_POOL_SIZE ->
  reconfigures (trace_of (rasterize_and_store charcode t)) = false /\
  match rasterize f charcode with
  | None =>
      exists t' tr,
        rasterize_and_store charcode t = Done None t' tr /\
        face t' = face t /\ cache t' = cache t /\ current_size t' = current_size t /\
        byte_pools t' = byte_pools t /\ byte_pool_idx t' = byte_pool_idx t
  | Some slot =>
      if decide (fits_pool slot) then
        exists buff t' tr,
          rasterize_and_store charcode t = Done (Some (glyph_of_slot slot buff)) t' tr /\
          face t' = face t /\ current_size t' = current_size t /\
          cache t' = cache_store (cache t) (current_size t) charcode (glyph_of_slot slot buff) /\
          (byte_pools t' = [] \/ 0 <= byte_pool_idx t' <= BYTE_POOL_SIZE) /\
          rasterizes tr = true
      else
        exists tr, rasterize_and_store charcode t = Failed Abort tr
  end.
Proof.
  intros Hface Hcur.
  unfold rasterize_and_store, rasterize.
  rewrite bind_get_state. rewrite Hface.
  destruct (decide (FT_Get_Char_Index (handle f) charcode = 0)) as [Hz|Hnz].
  { split; [reflexivity|]. eexists _, _. split; [reflexivity|]. repeat split; auto. }
  destruct (FT_Load_Glyph f (FT_Get_Char_Index (handle f) charcode)) as [slot|err] eqn:Hload.
  2:{ split; [reflexivity|]. eexists _, _. split; [reflexivity|]. repeat split; auto. }
  unfold render_slot. cbv zeta.
  destruct (format_is_bitmap slot) eqn:Hfmt.
  - (* the slot holds a bitmap *)
    destruct (decide (fits_pool slot)) as [Hfits|Hnofit].
    + destruct (decide (bitmap_size slot > 0)) as [Hpos|Hnpos] eqn:Hdec.
      * destruct Hfits as [?|Hfits]; [lia|].
        pose proof (to_uint16_range (bitmap_size slot)) as Hr. unfold is_uint16 in Hr.
        destruct (byte_pool_alloc_frame
                    (set_bitmap_glyph_pool (S (bitmap_glyph_pool t)) t)
                    (to_uint16 (bitmap_size slot)) ltac:(lia) Hcur)
          as (buff & t1 & tr1 & Hrun & Hf1 & Hc1 & Hs1 & _ & Hcur1 & Hrc1 & _).
        exec. rewrite Hdec. exec. rewrite Hrun. simpl.
        split; [rewrite ?app_nil_r; exact Hrc1|].
        eexists _, _, _. split; [reflexivity|]. simpl.
        simpl in Hf1, Hc1, Hs1. rewrite ?Hf1, ?Hc1, ?Hs1. repeat split; auto.
      * exec. rewrite Hdec. exec.
        split; [reflexivity|].
        eexists _, _, _. split; [reflexivity|]. simpl.
        repeat split; auto.
    + assert (Hpos : bitmap_size slot > 0).
      { apply Z.lt_gt, Z.lt_nge. intros ?. apply Hnofit. left. assumption. }
      assert (Hbig : to_uint16 (bitmap_size slot) > BYTE_POOL_SIZE).
      { apply Z.lt_gt, Z.lt_nge. intros ?. apply Hnofit. right. assumption. }
      destruct (byte_pool_alloc_abort
                  (set_bitmap_glyph_pool (S (bitmap_glyph_pool t)) t) _ Hbig) as (tr & Hrun).
      exec. destruct (decide (bitmap_size slot > 0)); [|contradiction].
      exec. rewrite Hrun. simpl.
      split; [|eexists; reflexivity].
      unfold byte_pool_alloc in Hrun.
      destruct (decide (to_uint16 (bitmap_size slot) > BYTE_POOL_SIZE)); [|contradiction].
      revert Hrun. exec. intros [= <-]. reflexivity.
  - (* an outline: it is rendered *)
    destruct (FT_Render_Glyph slot (bool_decide (screen_pixel_resolution = ONE_BIT)))
      as [rendered|err] eqn:Hrender.
    2:{ exec. split; [reflexivity|].
        eexists _, _. split; [reflexivity|]. repeat split; auto. }
    destruct (decide (fits_pool rendered)) as [Hfits|Hnofit].
    + destruct (decide (bitmap_size rendered > 0)) as [Hpos|Hnpos] eqn:Hdec.
      * destruct Hfits as [?|Hfits]; [lia|].
        pose proof (to_uint16_range (bitmap_size rendered)) as Hr. unfold is_uint16 in Hr.
        destruct (byte_pool_alloc_frame
                    (set_bitmap_glyph_pool (S (bitmap_glyph_pool t)) t)
                    (to_uint16 (bitmap_size rendered)) ltac:(lia) Hcur)
          as (buff & t1 & tr1 & Hrun & Hf1 & Hc1 & Hs1 & _ & Hcur1 & Hrc1 & _).
        exec. rewrite Hdec. exec. rewrite Hrun. simpl.
        split; [rewrite ?app_nil_r; exact Hrc1|].
        eexists _, _, _. split; [reflexivity|]. simpl.
        simpl in Hf1, Hc1, Hs1. rewrite ?Hf1, ?Hc1, ?Hs1. repeat split; auto.
      * exec. rewrite Hdec. exec.
        split; [reflexivity|].
        eexists _, _, _. split; [reflexivity|]. simpl.
        repeat split; auto.
    + assert (Hpos : bitmap_size rendered > 0).
      { apply Z.lt_gt, Z.lt_nge. intros ?. apply Hnofit. left. assumption. }
      assert (Hbig : to_uint16 (bitmap_size rendered) > BYTE_POOL_SIZE).
      { apply Z.lt_gt, Z.lt_nge. intros ?. apply Hnofit. right. assumption. }
      destruct (byte_pool_alloc_abort
                  (set_bitmap_glyph_pool (S (bitmap_glyph_pool t)) t) _ Hbig) as (tr & Hrun).
      exec.
      destruct (decide (bitmap_size rendered > 0)); [|contradiction].
      exec. rewrite Hrun. simpl.
      split; [|eexists; reflexivity].
      unfold byte_pool_alloc in Hrun.
      destruct (decide (to_uint16 (bitmap_size rendered) > BYTE_POOL_SIZE)); [|contradiction].
      revert Hrun. exec. intros [= <-]. reflexivity.
Qed.


Lemma sized_eta (f : FT_FaceRec) (n : Z) :
  char_height f = Some (n * 64) -> sized f n = f.
Proof. destruct f as [h c]. unfold sized. simpl. intros ->. reflexivity. Qed.

Lemma sized_handle (f1 f : FT_FaceRec) (n : Z) :
  handle f1 = handle f -> sized f1 n = sized f n.
Proof. unfold sized. intros ->. reflexivity. Qed.

Lemma rasterize_index (f : FT_FaceRec) (charcode : Z) (slot : FT_GlyphSlot) :
  rasterize f charcode = Some slot -> FT_Get_Char_Index (handle f) charcode <> 0.
Proof.
  unfold rasterize.
  destruct (decide (FT_Get_Char_Index (handle f) charcode = 0)); [discriminate|auto].
Qed.

(** The invariant does not look at the glyph pool: a state with the same
    face, size and cache and a cursor inside its chunk has it too. *)
Lemma TTF_inv_frame (t t' : TTF) :
  TTF_inv t ->
  face t' = face t -> current_size t' = current_size t -> cache t' = cache t ->
  (byte_pools t' = [] \/ 0 <= byte_pool_idx t' <= BYTE_POOL_SIZE) ->
  TTF_inv t'.
Proof.
  intros [Hs Hc Hi _] Hf Hcs Hca Hcur.
  split; rewrite ?Hf, ?Hcs, ?Hca; auto.
Qed.

(** The miss path up to the point where the face is sized. *)
Lemma miss_path (t : TTF) (f : FT_FaceRec) (charcode glyph_size : Z) :
  TTF_inv t ->
  face t = Some f ->
  cache_find (cache t) glyph_size charcode = None ->
  exists t1 f1 tr1,
    TTF_inv t1 /\ face t1 = Some f1 /\ handle f1 = handle f /\
    cache t1 = cache t /\ fonts_cache_index t1 = fonts_cache_index t /\
    (reconfigures tr1 = true <-> current_size t <> glyph_size) /\
    rasterizes tr1 = false /\
    (current_size t = glyph_size \/ size_accepted (handle f) glyph_size ->
     current_size t1 = glyph_size /\ (glyph_size <> -1 -> f1 = sized f glyph_size)) /\
    get_glyph_internal charcode glyph_size t =
      match rasterize_and_store charcode t1 with
      | Done r t2 tr2 => Done r t2 (tr1 ++ tr2)
      | Failed fl tr2 => Failed fl (tr1 ++ tr2)
      end.
Proof.
  intros Hinv Hface Hmiss.
  destruct (size_step t f glyph_size Hface)
    as (b & t1 & tr1 & Hstep & Hcache & Hpools & Hidx & Hfci & _ &
        (f1 & Hf1 & Hh1) & Hrc & Hras & Hacc & Hcases).
  exists t1, f1, tr1.
  assert (Hinv1 : TTF_inv t1).
  { destruct Hcases as [->|[Hcs1 Hface1]]; [exact Hinv|].
    destruct Hinv as [Hs Hc Hi Hcur].
    split; rewrite ?Hcache, ?Hpools, ?Hidx; auto.
    - intros f' Hf' _. rewrite Hface1 in Hf'. injection Hf' as <-.
      rewrite Hcs1. reflexivity.
    - intros f' n c g Hf' Hfind Hn. rewrite Hface1 in Hf'. injection Hf' as <-.
      destruct (Hc f n c g Hface Hfind Hn) as (slot & Hr & Hg).
      exists slot. split; [|exact Hg].
      rewrite <- Hr. f_equal.
    - intros f' n c g Hf' Hfind. rewrite Hface1 in Hf'. injection Hf' as <-.
      simpl. exact (Hi f n c g Hface Hfind). }
  split; [exact Hinv1|]. split; [exact Hf1|]. split; [exact Hh1|].
  split; [exact Hcache|]. split; [exact Hfci|]. split; [exact Hrc|].
  split; [exact Hras|]. split.
  - intros Hok. destruct (Hacc Hok) as (Hcs1 & Hsame & Hdiff).
    split; [exact Hcs1|]. intros Hn.
    destruct (decide (current_size t = glyph_size)) as [Heq|Hne].
    + rewrite (Hsame Heq) in Hf1. rewrite Hface in Hf1. injection Hf1 as <-.
      symmetry. apply sized_eta.
      rewrite <- Heq. apply (inv_sized t Hinv f Hface). rewrite Heq. exact Hn.
    + rewrite (Hdiff Hne) in Hf1. injection Hf1 as <-. reflexivity.
  - rewrite get_glyph_internal_unfold, Hface, Hmiss.
    unfold mbind, M_bind. rewrite Hstep. reflexivity.
Qed.


Lemma reconfigures_app (tr1 tr2 : list Event) :
  reconfigures (tr1 ++ tr2) = reconfigures tr1 || reconfigures tr2.
Proof. apply existsb_app. Qed.



(** Whatever the call does, the invariant is kept, the face stays open on
    the same resource, and at a size FreeType accepts no cached glyph is
    replaced. *)
Lemma get_glyph_internal_preserves (t : TTF) (charcode glyph_size : Z) r t' tr :
  TTF_inv t ->
  get_glyph_internal charcode glyph_size t = Done r t' tr ->
  TTF_inv t' /\
  (forall f, face t = Some f -> exists f', face t' = Some f' /\ handle f' = handle f) /\
  (face t = None -> t' = t) /\
  (forall f n c g,
     face t = Some f ->
     current_size t = glyph_size \/ size_accepted (handle f) glyph_size ->
     cache_find (cache t) n c = Some g -> cache_find (cache t') n c = Some g).
Proof.
  intros Hinv Hrun.
  destruct (face t) as [f|] eqn:Hface.
  2:{ rewrite get_glyph_internal_unfold, Hface in Hrun. cbn in Hrun.
      inversion Hrun; subst; clear Hrun.
      split; [exact Hinv|]. split; [intros; discriminate|].
      split; [reflexivity|intros; discriminate]. }
  destruct (cache_find (cache t) glyph_size charcode) as [g0|] eqn:Hfind.
  { rewrite get_glyph_internal_unfold, Hface, Hfind in Hrun. cbn in Hrun.
    inversion Hrun; subst; clear Hrun.
    split; [exact Hinv|]. split; [|split]; try discriminate.
    - intros f0 [= <-]. exists f. split; [exact Hface|reflexivity].
    - auto. }
  destruct (miss_path t f charcode glyph_size Hinv Hface Hfind)
    as (t1 & f1 & tr1 & Hinv1 & Hf1 & Hh1 & Hc1 & _ & _ & _ & Hok & Hrun1).
  rewrite Hrun1 in Hrun.
  pose proof (rasterize_and_store_run t1 f1 charcode Hf1 (inv_cursor t1 Hinv1))
    as (_ & Hras).
  destruct (rasterize f1 charcode) as [slot|] eqn:Hr.
  - destruct (decide (fits_pool slot)) as [Hfits|Hno].
    2:{ destruct Hras as (tr2 & Hrun2). rewrite Hrun2 in Hrun. discriminate. }
    destruct Hras as (buff & t2 & tr2 & Hrun2 & Hf2 & Hcs2 & Hc2 & Hcur2 & Hras2).
    rewrite Hrun2 in Hrun. inversion Hrun; subst; clear Hrun.
    destruct Hinv1 as [Hs1 Hca1 Hi1 Hcur1].
    split; [|split; [|split]]; try discriminate.
    + split.
      * intros f' Hf' Hne. rewrite Hf2 in Hf'. rewrite Hcs2. apply Hs1; congruence.
      * intros f' n c g Hf' Hfind' Hnn.
        rewrite Hf2, Hf1 in Hf'. injection Hf' as <-.
        rewrite Hc2 in Hfind'.
        destruct (decide ((n, c) = (current_size t1, charcode))) as [[= -> ->]|Hne].
        -- rewrite cache_find_store in Hfind'. injection Hfind' as <-.
           exists slot. split; [|reflexivity].
           rewrite sized_eta; [exact Hr|]. apply Hs1; auto.
        -- rewrite cache_find_store_ne in Hfind' by exact Hne.
           exact (Hca1 _ n c g Hf1 Hfind' Hnn).
      * intros f' n c g Hf' Hfind'.
        rewrite Hf2, Hf1 in Hf'. injection Hf' as <-.
        rewrite Hc2 in Hfind'.
        destruct (decide ((n, c) = (current_size t1, charcode))) as [[= -> ->]|Hne].
        -- exact (rasterize_index _ _ _ Hr).
        -- rewrite cache_find_store_ne in Hfind' by exact Hne.
           exact (Hi1 _ n c g Hf1 Hfind').
      * exact Hcur2.
    + intros f0 [= <-]. exists f1. split; [congruence|exact Hh1].
    + intros f0 n c g [= <-] Hacc Hfind'.
      destruct (Hok Hacc) as (Hcs1 & _).
      rewrite Hc2, Hcs1, cache_find_store_ne; [congruence|].
      intros [= -> ->]. congruence.
  - destruct Hras as (t2 & tr2 & Hrun2 & Hf2 & Hc2 & Hcs2 & Hp2 & Hi2).
    rewrite Hrun2 in Hrun. inversion Hrun; subst; clear Hrun.
    split; [|split; [|split]]; try discriminate.
    + apply (TTF_inv_frame t1); auto.
      rewrite Hp2, Hi2. exact (inv_cursor t1 Hinv1).
    + intros f0 [= <-]. exists f1. split; [congruence|exact Hh1].
    + intros f0 n c g [= <-] Hacc Hfind'. congruence.
Qed.

(** The face is reconfigured on a miss whose size is not the current one,
    and never otherwise. *)
Lemma get_glyph_internal_reconfigures (t : TTF) (charcode glyph_size : Z) :
  TTF_inv t ->
  reconfigures (trace_of (get_glyph_internal charcode glyph_size t)) = true <->
  face t <> None /\ cache_find (cache t) glyph_size charcode = None /\
  current_size t <> glyph_size.
Proof.
  intros Hinv.
  destruct (face t) as [f|] eqn:Hface.
  2:{ rewrite get_glyph_internal_unfold, Hface. simpl. split; [discriminate|tauto]. }
  destruct (cache_find (cache t) glyph_size charcode) as [g0|] eqn:Hfind.
  { rewrite get_glyph_internal_unfold, Hface, Hfind. simpl.
    split; [discriminate|]. intros (_ & ? & _). discriminate. }
  destruct (miss_path t f charcode glyph_size Hinv Hface Hfind)
    as (t1 & f1 & tr1 & Hinv1 & Hf1 & _ & _ & _ & Hrc & _ & _ & Hrun1).
  rewrite Hrun1.
  pose proof (rasterize_and_store_run t1 f1 charcode Hf1 (inv_cursor t1 Hinv1))
    as (Hrc2 & _).
  assert (Htrace : reconfigures
            (trace_of (match rasterize_and_store charcode t1 with
                       | Done r t2 tr2 => Done r t2 (tr1 ++ tr2)
                       | Failed fl tr2 => Failed fl (tr1 ++ tr2)
                       end)) = reconfigures tr1).
  { destruct (rasterize_and_store charcode t1); simpl in *;
      rewrite reconfigures_app, Hrc2; apply orb_false_r. }
  rewrite Htrace, Hrc.
  split; [intros ?; repeat split; auto; discriminate|tauto].
Qed.


Lemma TTF_inv_fresh (t : TTF) :
  cache t = ∅ -> current_size t = -1 -> byte_pools t = [] -> TTF_inv t.
Proof.
  intros Hc Hs Hp. split.
  - intros f _ Hne. contradiction.
  - intros f n c g _ Hfind. unfold cache_find in Hfind.
    rewrite Hc, lookup_empty in Hfind. discriminate.
  - intros f n c g _ Hfind. unfold cache_find in Hfind.
    rewrite Hc, lookup_empty in Hfind. discriminate.
  - left. exact Hp.
Qed.

Lemma clear_cache_inv (t : TTF) :
  TTF_inv t ->
  exists t', clear_cache t = Done tt t' [] /\ TTF_inv t' /\ face t' = face t.
Proof.
  intros [Hs _ _ _]. eexists. split; [reflexivity|]. split; [|reflexivity].
  split; simpl.
  - exact Hs.
  - intros f n c g _ Hfind. unfold cache_find in Hfind.
    rewrite lookup_empty in Hfind. discriminate.
  - intros f n c g _ Hfind. unfold cache_find in Hfind.
    rewrite lookup_empty in Hfind. discriminate.
  - left. reflexivity.
Qed.



End GlyphCache.

(* --------------------------------------------------------------------- *)
(** ** [get_size] *)
(* --------------------------------------------------------------------- *)

Section GetSize.
Context `{Env}.











End GetSize.

(* --------------------------------------------------------------------- *)
(** ** The registry: [Fonts::get] *)
(* --------------------------------------------------------------------- *)

Section FontsGet.
Context `{Env}.

Lemma size_t_pow :
  16 <= SIZE_T_BITS ->
  2 ^ SIZE_T_BITS = 2 * 2 ^ (SIZE_T_BITS - 1) /\ 32768 <= 2 ^ (SIZE_T_BITS - 1).
Proof.
  intros Hbits. split.
  - rewrite <- Z.pow_succ_r by lia. f_equal. lia.
  - change 32768 with (2 ^ 15). apply Z.pow_le_mono_r; lia.
Qed.

(** The conversion of an index that is not negative keeps it. *)
Lemma to_size_t_nonneg (index : Z) :
  16 <= SIZE_T_BITS -> 0 <= index <= 32767 -> to_size_t index = index.
Proof.
  intros Hbits Hi. destruct (size_t_pow Hbits) as [H2 H15].
  unfold to_size_t, to_unsigned. apply Z.mod_small. lia.
Qed.

(** The conversion of a negative index gives a value above the size of any
    vector. *)
Lemma to_size_t_negative (index : Z) :
  16 <= SIZE_T_BITS -> -32768 <= index < 0 ->
  to_size_t index = index + 2 ^ SIZE_T_BITS /\
  2 ^ (SIZE_T_BITS - 1) <= to_size_t index.
Proof.
  intros Hbits Hi. destruct (size_t_pow Hbits) as [H2 H15].
  unfold to_size_t, to_unsigned.
  assert (E : index mod 2 ^ SIZE_T_BITS = index + 2 ^ SIZE_T_BITS).
  { symmetry. apply (Z.mod_unique index (2 ^ SIZE_T_BITS) (-1)); lia. }
  rewrite E. lia.
Qed.

(** The fallback path of [get]. *)
Lemma get_out_of_range (w : World) (index : Z) (entry0 : FontEntry) :
  head (font_cache w) = Some entry0 ->
  to_size_t index >= Z.of_nat (length (font_cache w)) ->
  get index w =
    Done (font entry0) w
      [LOG_E "Fonts.get(): Wrong index: %d vs size: %u"
             [index; Z.of_nat (length (font_cache w))]].
Proof.
  intros Hhead Hout. unfold get. rewrite bind_get_state.
  destruct (decide (to_size_t index >= Z.of_nat (length (font_cache w)))); [|contradiction].
  unfold vector_at. simpl.
  destruct (font_cache w) as [|e l]; [discriminate|].
  injection Hhead as ->. reflexivity.
Qed.

(** C6. On a registry that is not empty, [get(index)] finishes without a
    fault for every 16-bit index: with an index in range it returns the font
    of the entry at that index and logs nothing; with an index out of range
    it logs the error and returns the font of the entry at index 0. *)
Theorem get_falls_back (w : World) (index : Z) (entry0 : FontEntry) :
  16 <= SIZE_T_BITS ->
  Z.of_nat (length (font_cache w)) < 2 ^ (SIZE_T_BITS - 1) ->
  is_int16 index ->
  head (font_cache w) = Some entry0 ->
  (0 <= index < Z.of_nat (length (font_cache w)) ->
   exists entry,
     font_cache w !! Z.to_nat index = Some entry /\
     get index w = Done (font entry) w []) /\
  (~ (0 <= index < Z.of_nat (length (font_cache w))) ->
   get index w =
     Done (font entry0) w
       [LOG_E "Fonts.get(): Wrong index: %d vs size: %u"
              [index; Z.of_nat (length (font_cache w))]]).
Proof.
  intros Hbits Hmax Hidx Hhead. unfold is_int16 in Hidx. split.
  - intros Hin.
    destruct (lookup_lt_is_Some_2 (font_cache w) (Z.to_nat index)) as [entry Hentry]; [lia|].
    exists entry. split; [exact Hentry|].
    unfold get. rewrite bind_get_state.
    rewrite to_size_t_nonneg by lia.
    destruct (decide (index >= Z.of_nat (length (font_cache w)))); [lia|].
    unfold vector_at. rewrite Hentry. reflexivity.
  - intros Hout. apply get_out_of_range; [exact Hhead|].
    destruct (decide (index < 0)) as [Hneg|Hpos].
    + destruct (to_size_t_negative index Hbits) as [_ Hbig]; lia.
    + rewrite to_size_t_nonneg by lia. lia.
Qed.

(** C9. On a registry that is not empty, every negative index is out of
    range for the bounds check, which compares the converted index with the
    unsigned size: [get] logs the error and returns the font of the entry at
    index 0, and the vector is never indexed with the negative value. *)
Theorem get_negative_index (w : World) (index : Z) (entry0 : FontEntry) :
  16 <= SIZE_T_BITS ->
  Z.of_nat (length (font_cache w)) < 2 ^ (SIZE_T_BITS - 1) ->
  -32768 <= index < 0 ->
  head (font_cache w) = Some entry0 ->
  to_size_t index >= Z.of_nat (length (font_cache w)) /\
  get index w =
    Done (font entry0) w
      [LOG_E "Fonts.get(): Wrong index: %d vs size: %u"
             [index; Z.of_nat (length (font_cache w))]].
Proof.
  intros Hbits Hmax Hneg Hhead.
  destruct (to_size_t_negative index Hbits Hneg) as [_ Hbig].
  assert (Hout : to_size_t index >= Z.of_nat (length (font_cache w))) by lia.
  split; [exact Hout|]. apply get_out_of_range; assumption.
Qed.

(** On an empty registry the fallback itself is out of range: [at(0)]
    throws. *)
Lemma get_empty_throws (w : World) (index : Z) :
  font_cache w = [] -> exists tr, get index w = Failed OutOfRange tr.
Proof.
  intros Hnil. unfold get, vector_at. rewrite bind_get_state, Hnil, !lookup_nil.
  destruct (decide (to_size_t index >= Z.of_nat (length (@nil FontEntry))));
    eexists; reflexivity.
Qed.

End FontsGet.

(* --------------------------------------------------------------------- *)
(** ** The registry: [Fonts::add] *)
(* --------------------------------------------------------------------- *)

Section FontsAdd.
Context `{Env}.

Lemma add_source_with (name0 : string) (style0 : FaceStyle) (src : Source) :
  add_source name0 style0 src = add_with (constructor_of src) name0 style0.
Proof. destruct src; reflexivity. Qed.

(** A constructor always finishes; the object is ready exactly when the
    resource behind the source opens, and the attempt to open it shows in
    the events. *)
Lemma constructor_run (src : Source) :
  exists t tr,
    constructor_of src TTF_raw = Done tt t tr /\
    ready t = source_opens src /\
    opens_resource tr = true /\
    cache t = ∅ /\ current_size t = -1 /\ byte_pools t = [].
Proof.
  destruct src as [filename|buffer size]; simpl.
  - unfold TTF_from_file, set_font_face_from_file, set_font_face_from_memory. exec.
    destruct (read_font_file filename) as [| |bytes]; simpl;
      try (eexists _, _; split; [reflexivity|]; repeat split; reflexivity).
    destruct (FT_New_Memory_Face bytes (Z.of_nat (length bytes))); simpl;
      eexists _, _; (split; [reflexivity|]); repeat split; reflexivity.
  - unfold TTF_from_memory, set_font_face_from_memory. exec.
    destruct (FT_New_Memory_Face buffer size); simpl;
      eexists _, _; (split; [reflexivity|]); repeat split; reflexivity.
Qed.

Lemma World_eta (w : World) :
  {| font_cache := font_cache w; heap := heap w; page := page w |} = w.
Proof. destruct w; reflexivity. Qed.

Lemma fresh_loc_free (w : World) : heap w !! fresh (dom (heap w)) = None.
Proof. apply not_elem_of_dom, is_fresh. Qed.

(** [add] when the registry already holds (name, style). *)
Lemma add_with_present (constructor : M TTF unit) (name0 : string) (style0 : FaceStyle)
    (w : World) :
  existsb (same_font name0 style0) (font_cache w) = true ->
  add_with constructor name0 style0 w = Done true w [].
Proof.
  intros Hex. unfold add_with. rewrite bind_get_state, Hex. reflexivity.
Qed.

(** [add] of a new (name, style) whose font resource opens. *)
Lemma add_with_opened (constructor : M TTF unit) (name0 : string) (style0 : FaceStyle)
    (w : World) (t : TTF) (tr : list Event) :
  existsb (same_font name0 style0) (font_cache w) = false ->
  constructor TTF_raw = Done tt t tr ->
  ready t = true ->
  exists w1 tr1,
    add_with constructor name0 style0 w = Done true w1 tr1 /\
    font_cache w1 =
      font_cache w ++ [{| name := name0; font := Some (fresh (dom (heap w))); style := style0 |}] /\
    heap w1 = <[fresh (dom (heap w)) :=
                 set_fonts_cache_index (Z.of_nat (length (font_cache w))) t]> (heap w) /\
    page w1 = page w.
Proof.
  intros Hex Hctor Hready.
  unfold add_with. rewrite bind_get_state, Hex.
  unfold new_TTF, on_font. exec. rewrite Hctor. simpl.
  rewrite lookup_insert_eq. simpl. rewrite Hready. simpl.
  rewrite lookup_insert_eq. simpl.
  eexists _, _. split; [reflexivity|]. simpl.
  split; [reflexivity|]. split; [|reflexivity].
  rewrite !insert_insert_eq. reflexivity.
Qed.

(** [add] of a new (name, style) whose font resource does not open: the
    object is deleted and the state is the one before the call. *)
Lemma add_with_failed (constructor : M TTF unit) (name0 : string) (style0 : FaceStyle)
    (w : World) (t : TTF) (tr : list Event) :
  existsb (same_font name0 style0) (font_cache w) = false ->
  constructor TTF_raw = Done tt t tr ->
  ready t = false ->
  exists tr1, add_with constructor name0 style0 w = Done false w tr1 /\
              opens_resource tr1 = opens_resource tr.
Proof.
  intros Hex Hctor Hready.
  assert (Hface : face t = None).
  { unfold ready in Hready. apply bool_decide_eq_false in Hready.
    destruct (face t); [exfalso; apply Hready; discriminate|reflexivity]. }
  unfold add_with. rewrite bind_get_state, Hex.
  unfold new_TTF, delete_TTF, on_font, TTF_destroy. exec. rewrite Hctor. simpl.
  rewrite lookup_insert_eq. simpl. rewrite Hready. simpl.
  rewrite lookup_insert_eq. simpl.
  destruct (decide (face t <> None)) as [Hn|_]; [congruence|]. simpl.
  eexists. split.
  - f_equal. unfold set_heap. simpl.
    rewrite !insert_insert_eq, delete_insert_id by apply fresh_loc_free.
    apply World_eta.
  - rewrite !app_nil_r. reflexivity.
Qed.





(** The invariant of the registry holds on the empty registry and is kept
    by [add]. *)
Lemma Fonts_inv_empty (w : World) : font_cache w = [] -> Fonts_inv w.
Proof.
  intros Hnil. split; rewrite Hnil.
  - intros e He. apply elem_of_nil in He. contradiction.
  - constructor.
Qed.

Lemma add_source_inv (w w1 : World) (name0 : string) (style0 : FaceStyle) (src : Source)
    (r : bool) (tr : list Event) :
  Fonts_inv w ->
  add_source name0 style0 src w = Done r w1 tr ->
  Fonts_inv w1.
Proof.
  intros Hinv Hrun. rewrite add_source_with in Hrun.
  destruct (constructor_run src) as (t & tr0 & Hctor & _).
  destruct (existsb (same_font name0 style0) (font_cache w)) eqn:Hex.
  { rewrite add_with_present in Hrun by exact Hex. congruence. }
  destruct (ready t) eqn:Hready.
  2:{ destruct (add_with_failed _ name0 style0 w t tr0 Hex Hctor Hready) as (tr1 & Hrun1 & _).
      congruence. }
  destruct (add_with_opened _ name0 style0 w t tr0 Hex Hctor Hready)
    as (w2 & tr2 & Hrun2 & Hfc & Hheap & _).
  assert (w2 = w1) by congruence. subst w2.
  destruct Hinv as [Hlive Hdistinct].
  pose proof (fresh_loc_free w) as Hfresh.
  split; rewrite Hfc.
  - intros e He. apply elem_of_app in He as [He|He].
    + destruct (Hlive e He) as (l & t' & Hf & Hl).
      exists l, t'. split; [exact Hf|].
      rewrite Hheap, lookup_insert_ne; [exact Hl|]. congruence.
    + apply list_elem_of_singleton in He as ->. simpl.
      eexists _, _. split; [reflexivity|]. rewrite Hheap. apply lookup_insert_eq.
  - rewrite fmap_app. apply NoDup_app. split; [exact Hdistinct|]. split.
    + intros p Hp Hp'. simpl in Hp'. apply list_elem_of_singleton in Hp' as ->.
      apply list_elem_of_fmap in Hp as (e & Hf & He).
      destruct (Hlive e He) as (l & t' & Hf' & Hl). rewrite Hf' in Hf. congruence.
    + simpl. apply NoDup_singleton.
Qed.

End FontsAdd.

(* --------------------------------------------------------------------- *)
(** ** The registry: [Fonts::clear] *)
(* --------------------------------------------------------------------- *)

Section FontsClear.
Context `{Env}.

Lemma TTF_destroy_run (t : TTF) : exists t', TTF_destroy t = Done tt t' [].
Proof.
  unfold TTF_destroy. rewrite bind_get_state.
  destruct (decide (face t <> None)); eexists; reflexivity.
Qed.

(** [delete] of a live object. *)
Lemma delete_TTF_run (w : World) (l : loc) (t : TTF) :
  heap w !! l = Some t ->
  delete_TTF (Some l) w = Done tt (set_heap (delete l (heap w)) w) [].
Proof.
  intros Hl. unfold delete_TTF, on_font. exec. rewrite Hl.
  destruct (TTF_destroy_run t) as (t' & ->). simpl.
  f_equal. unfold set_heap. simpl. rewrite delete_insert_eq. reflexivity.
Qed.

(** [clear_cache] through the pointer of an entry. *)
Lemma purge_run (w : World) (l : loc) (t : TTF) :
  heap w !! l = Some t ->
  exists t', clear_cache t = Done tt t' [] /\
    on_font (Some l) clear_cache w = Done tt (set_heap (<[l := t']> (heap w)) w) [].
Proof.
  intros Hl. destruct (clear_cache_run t) as (t' & Hrun & _).
  exists t'. split; [exact Hrun|].
  unfold on_font. rewrite Hl, Hrun. reflexivity.
Qed.

(** The loop of [clear] over entries that point to live, distinct objects:
    the objects of the entries counted below 5 are purged when [all] is
    false, the others are deleted, and nothing else changes. *)
Lemma clear_loop_run (all : bool) (entries : list FontEntry) :
  forall (i : Z) (w : World),
    (forall e, e ∈ entries -> exists l t, font e = Some l /\ heap w !! l = Some t) ->
    NoDup (font <$> entries) ->
    exists w',
      clear_loop all i entries w = Done tt w' [] /\
      font_cache w' = font_cache w /\ page w' = page w /\
      (forall l, Some l ∉ font <$> entries -> heap w' !! l = heap w !! l) /\
      (forall (k : nat) e l t,
         entries !! k = Some e -> font e = Some l -> heap w !! l = Some t ->
         if all || bool_decide (i + Z.of_nat k >= 5)
         then heap w' !! l = None
         else exists t', clear_cache t = Done tt t' [] /\ heap w' !! l = Some t').
Proof.
  induction entries as [|e rest IH]; intros i w Hlive Hdistinct.
  - exists w. split; [reflexivity|]. split; [reflexivity|]. split; [reflexivity|].
    split; [reflexivity|]. intros k e l t Hk. rewrite lookup_nil in Hk. discriminate.
  - rewrite fmap_cons in Hdistinct. apply NoDup_cons in Hdistinct as [Hfresh Hdistinct].
    destruct (Hlive e ltac:(left)) as (l & t & Hfont & Hl).
    (* the step on the first entry *)
    assert (Hstep : exists h1,
              (if all || bool_decide (i >= 5) then delete_TTF (font e)
               else on_font (font e) clear_cache) w = Done tt (set_heap h1 w) [] /\
              (forall l', l' <> l -> h1 !! l' = heap w !! l') /\
              (if all || bool_decide (i >= 5) then h1 !! l = None
               else exists t', clear_cache t = Done tt t' [] /\ h1 !! l = Some t')).
    { rewrite Hfont. destruct (all || bool_decide (i >= 5)).
      - exists (delete l (heap w)). split; [apply (delete_TTF_run w l t Hl)|].
        split; [intros l' Hne; apply lookup_delete_ne; congruence|apply lookup_delete_eq].
      - destruct (purge_run w l t Hl) as (t' & Hcc & Hrun).
        exists (<[l := t']> (heap w)). split; [exact Hrun|].
        split; [intros l' Hne; apply lookup_insert_ne; congruence|].
        exists t'. split; [exact Hcc|apply lookup_insert_eq]. }
    destruct Hstep as (h1 & Hrun1 & Hother & Hthis).
    assert (Hnotin : forall e', e' ∈ rest -> font e' <> Some l).
    { intros e' He' Heq. apply Hfresh. rewrite Hfont, <- Heq.
      apply list_elem_of_fmap. exists e'. split; [reflexivity|exact He']. }
    destruct (IH (i + 1) (set_heap h1 w)) as (w' & Hrun & Hfc & Hpage & Hframe & Hent).
    { intros e' He'. destruct (Hlive e' ltac:(right; exact He')) as (l' & t' & Hf' & Hl').
      exists l', t'. split; [exact Hf'|]. simpl. rewrite Hother; [exact Hl'|].
      intros ->. apply (Hnotin e' He'). exact Hf'. }
    { exact Hdistinct. }
    exists w'. simpl. unfold mbind, M_bind. rewrite Hrun1, Hrun. simpl.
    split; [reflexivity|]. split; [exact Hfc|]. split; [exact Hpage|]. split.
    + intros l' Hl'. rewrite ?fmap_cons in Hl'. simpl in Hl'. apply not_elem_of_cons in Hl' as [Hne Hl'].
      rewrite (Hframe l' Hl'). simpl. apply Hother. rewrite Hfont in Hne. congruence.
    + intros k e' l' t' Hk Hf' Hl'. destruct k as [|k]; simpl in Hk.
      * injection Hk as <-. rewrite Hfont in Hf'. injection Hf' as <-.
        rewrite Hl in Hl'. injection Hl' as <-.
        rewrite Z.add_0_r.
        assert (Hkeep : heap w' !! l = h1 !! l).
        { rewrite (Hframe l); [reflexivity|].
          intros Hin. apply list_elem_of_fmap in Hin as (e' & He' & Hin).
          apply (Hnotin e' Hin). symmetry. exact He'. }
        rewrite Hkeep. exact Hthis.
      * assert (Hne : l' <> l).
        { intros ->. apply (Hnotin e'); [|exact Hf'].
          apply list_elem_of_lookup. exists k. exact Hk. }
        specialize (Hent k e' l' t' Hk Hf'). simpl in Hent.
        rewrite (Hother l' Hne) in Hent. specialize (Hent Hl').
        replace (i + Z.of_nat (S k)) with (i + 1 + Z.of_nat k) by lia.
        exact Hent.
Qed.


End FontsClear.

(* ===================================================================== *)
(** * The properties on the synthetic environment *)
(* ===================================================================== *)

Import Synthetic.

Lemma face0_inv : TTF_inv (H := env0) face0.
Proof. apply TTF_inv_fresh; reflexivity. Qed.






(** [get] on a registry of three faces, with an index in range and with one
    past the end. *)
Lemma get_falls_back_witness :
  get (H := env0) 1 three_fonts_epub = Done (Some 1%nat) three_fonts_epub [] /\
  get (H := env0) 7 three_fonts_epub =
    Done (Some 0%nat) three_fonts_epub
      [LOG_E "Fonts.get(): Wrong index: %d vs size: %u" [7; 3]].
Proof.
  split.
  - destruct (get_falls_back (H := env0) three_fonts_epub 1
                {| name := "Drawings"; font := Some 0%nat; style := NORMAL |})
      as [Hin _].
    + vm_compute. discriminate.
    + vm_compute. reflexivity.
    + vm_compute. split; discriminate.
    + vm_compute. reflexivity.
    + destruct Hin as (entry & Hentry & Hrun).
      * vm_compute. split; [discriminate|reflexivity].
      * vm_compute in Hentry. injection Hentry as <-. exact Hrun.
  - destruct (get_falls_back (H := env0) three_fonts_epub 7
                {| name := "Drawings"; font := Some 0%nat; style := NORMAL |})
      as [_ Hout].
    + vm_compute. discriminate.
    + vm_compute. reflexivity.
    + vm_compute. split; discriminate.
    + vm_compute. reflexivity.
    + apply Hout. vm_compute. intros [_ Hlt]. discriminate.
Defined.

(** [get(-1)] on a registry of three faces. *)
Lemma get_negative_index_witness :
  to_size_t (H := env0) (-1) >= 3 /\
  get (H := env0) (-1) three_fonts_epub =
    Done (Some 0%nat) three_fonts_epub
      [LOG_E "Fonts.get(): Wrong index: %d vs size: %u" [-1; 3]].
Proof.
  apply (get_negative_index (H := env0) three_fonts_epub (-1)
           {| name := "Drawings"; font := Some 0%nat; style := NORMAL |}).
  - vm_compute. discriminate.
  - vm_compute. reflexivity.
  - vm_compute. split; [discriminate|reflexivity].
  - vm_compute. reflexivity.
Defined.

(** A charcode outside the face, asked at size 10 on a fresh face. *)
Lemma get_glyph_unknown_charcode_witness :
  exists t' tr,
    get_glyph (H := env0) 200 10 face0 =
      Done None t'
        (tr ++ [LOG_E "Charcode not found in face: %d, font_index: %d" [200; 0]]) /\
    rasterizes tr = false /\
    cache t' = cache face0 /\
    byte_pools t' = byte_pools face0 /\ byte_pool_idx t' = byte_pool_idx face0.
Proof.
  apply (get_glyph_unknown_charcode (H := env0) face0
           {| handle := 1; char_height := None |} 200 10).
  - exact face0_inv.
  - reflexivity.
  - reflexivity.
Defined.

(** Four allocations in chunks of 16384 bytes: the third does not fit
    behind the first two and opens a chunk, and so does the fourth. *)
Lemma byte_pool_allocs_ok_witness :
  exists steps t' tr,
    byte_pool_allocs (H := env0) [50; 72; 16384; 100] face0 = Done steps t' tr /\
    asked <$> steps = [50; 72; 16384; 100] /\
    Forall (alloc_ok (H := env0)) steps.
Proof.
  apply (byte_pool_allocs_ok (H := env0) [50; 72; 16384; 100] face0).
  - vm_compute. discriminate.
  - repeat constructor; vm_compute; discriminate.
  - left. reflexivity.
Defined.

(** A face that was never opened returns null. *)
Lemma get_glyph_face_not_open_witness :
  get_glyph (H := env0) 97 10 TTF_raw = Done None TTF_raw [].
Proof.
  apply (proj1 (get_glyph_face_not_open (H := env0) 97 10)). reflexivity.
Defined.



(* ===================================================================== *)
(** * Further properties of the registry *)
(* ===================================================================== *)

Section FontsLookup.
Context `{Env}.

Lemma same_font_entry_for (name0 : string) (style0 : FaceStyle) (e : FontEntry) :
  same_font name0 style0 e = true <-> entry_for name0 style0 e.
Proof.
  unfold same_font, entry_for. rewrite andb_true_iff, !bool_decide_eq_true.
  split; intros [? ?]; split; congruence.
Qed.

(** The loop of [get_index] from a counter that cannot pass the largest
    16-bit value before the end of the list. *)
Lemma get_index_loop_first (name0 : string) (style0 : FaceStyle) (l : list FontEntry) :
  forall i,
    l = [] \/ (0 <= i /\ i + Z.of_nat (length l) <= 32768) ->
    (get_index_loop name0 style0 i l = -1 /\
     forall e, e ∈ l -> ~ entry_for name0 style0 e) \/
    (exists (k : nat) e,
       l !! k = Some e /\ entry_for name0 style0 e /\
       (forall (j : nat) e', (j < k)%nat -> l !! j = Some e' -> ~ entry_for name0 style0 e') /\
       get_index_loop name0 style0 i l = i + Z.of_nat k).
Proof.
  induction l as [|e rest IH]; intros i Hi.
  - left. split; [reflexivity|]. intros e He. apply elem_of_nil in He. contradiction.
  - destruct Hi as [?|[Hi0 Hi]]; [discriminate|]. simpl in Hi. simpl.
    destruct (bool_decide (name e = name0) && bool_decide (style e = style0)) eqn:Hm.
    + right. exists 0%nat, e. split; [reflexivity|]. split.
      * apply andb_true_iff in Hm as [Hn Hs].
        apply bool_decide_eq_true in Hn, Hs. split; assumption.
      * split; [intros j e' Hj; lia|lia].
    + assert (Hne : ~ entry_for name0 style0 e).
      { intros [Hn Hs]. rewrite !bool_decide_eq_true_2 in Hm by assumption. discriminate. }
      destruct (IH (to_int16 (i + 1))) as [[Hr Hnone]|(k & e' & Hk & He' & Hfirst & Hr)].
      * destruct rest as [|e2 rest2]; [left; reflexivity|].
        right. simpl length in Hi. rewrite to_int16_id by (unfold is_int16; lia).
        simpl. lia.
      * left. split; [exact Hr|]. intros e0 He0.
        apply elem_of_cons in He0 as [->|He0]; [exact Hne|exact (Hnone e0 He0)].
      * right. exists (S k), e'. split; [exact Hk|]. split; [exact He'|]. split.
        -- intros j e0 Hj Hl. destruct j as [|j]; simpl in Hl.
           ++ injection Hl as <-. exact Hne.
           ++ apply (Hfirst j e0); [lia|exact Hl].
        -- rewrite Hr.
           assert (Hlen : (k < length rest)%nat) by (apply lookup_lt_is_Some; eauto).
           rewrite to_int16_id by (unfold is_int16; lia). lia.
Qed.

(** X1. [get_index] is a search for the first entry: on a registry of at
    most 32768 entries it changes nothing, logs nothing, and returns either
    -1, and then no entry is for (name, style), or the position of an entry
    for (name, style) before which no entry is for (name, style). *)
Theorem get_index_finds_first (w : World) (name0 : string) (style0 : FaceStyle) :
  Z.of_nat (length (font_cache w)) <= 32768 ->
  exists idx,
    get_index name0 style0 w = Done idx w [] /\
    ((idx = -1 /\ forall e, e ∈ font_cache w -> ~ entry_for name0 style0 e) \/
     (0 <= idx /\
      exists e,
        font_cache w !! Z.to_nat idx = Some e /\ entry_for name0 style0 e /\
        forall (j : nat) e', (j < Z.to_nat idx)%nat ->
          font_cache w !! j = Some e' -> ~ entry_for name0 style0 e')).
Proof.
  intros Hlen.
  exists (get_index_loop name0 style0 0 (font_cache w)).
  split; [unfold get_index; rewrite bind_get_state; reflexivity|].
  destruct (get_index_loop_first name0 style0 (font_cache w) 0)
    as [[Hr Hnone]|(k & e & Hk & He & Hfirst & Hr)].
  - right. lia.
  - left. split; assumption.
  - right. rewrite Hr. split; [lia|]. exists e.
    replace (Z.to_nat (0 + Z.of_nat k)) with k by lia.
    split; [exact Hk|]. split; [exact He|exact Hfirst].
Qed.

(** [get] with an index inside the registry. *)
Lemma get_in_range (w : World) (index : Z) (e : FontEntry) :
  16 <= SIZE_T_BITS ->
  0 <= index <= 32767 ->
  font_cache w !! Z.to_nat index = Some e ->
  get index w = Done (font e) w [].
Proof.
  intros Hbits Hidx He.
  assert (Hlen : (Z.to_nat index < length (font_cache w))%nat)
    by (apply lookup_lt_is_Some; eauto).
  unfold get. rewrite bind_get_state, to_size_t_nonneg by assumption.
  destruct (decide (index >= Z.of_nat (length (font_cache w)))); [lia|].
  unfold vector_at. rewrite He. reflexivity.
Qed.

(** X2. A face that [add] registered can be found and fetched: after a call
    of [add] that returned true, [get_index(name, style)] returns the
    position of an entry for (name, style), and [get] of that position
    returns the font of this entry, with no log.  When (name, style) was not
    registered before, the position is the former size of the registry and
    the font is a live, ready [TTF] whose [fonts_cache_index] is that
    position. *)
Theorem add_then_lookup (w w1 : World) (name0 : string) (style0 : FaceStyle)
    (src : Source) (tr : list Event) :
  16 <= SIZE_T_BITS ->
  Z.of_nat (length (font_cache w)) < 32767 ->
  add_source name0 style0 src w = Done true w1 tr ->
  exists idx e,
    get_index name0 style0 w1 = Done idx w1 [] /\
    font_cache w1 !! Z.to_nat idx = Some e /\
    0 <= idx /\
    entry_for name0 style0 e /\
    get idx w1 = Done (font e) w1 [] /\
    (existsb (same_font name0 style0) (font_cache w) = false ->
     idx = Z.of_nat (length (font_cache w)) /\
     exists l t, font e = Some l /\ heap w1 !! l = Some t /\
                 ready t = true /\ fonts_cache_index t = idx).
Proof.
  intros Hbits Hlen Hrun. rewrite add_source_with in Hrun.
  destruct (constructor_run src) as (t & tr0 & Hctor & _).
  (* the registry after the call, and an entry for (name, style) in it *)
  assert (Hafter : Z.of_nat (length (font_cache w1)) <= 32767 /\
                   exists e0, e0 ∈ font_cache w1 /\ entry_for name0 style0 e0).
  { destruct (existsb (same_font name0 style0) (font_cache w)) eqn:Hex.
    - rewrite add_with_present in Hrun by exact Hex.
      assert (w1 = w) by congruence. subst w1. split; [lia|].
      apply existsb_exists in Hex as (e0 & Hin & Hm).
      exists e0. split; [apply list_elem_of_In; exact Hin|].
      apply same_font_entry_for. exact Hm.
    - destruct (ready t) eqn:Hready.
      2:{ destruct (add_with_failed _ name0 style0 w t tr0 Hex Hctor Hready)
            as (tr1 & Hrun1 & _). congruence. }
      destruct (add_with_opened _ name0 style0 w t tr0 Hex Hctor Hready)
        as (w2 & tr2 & Hrun2 & Hfc & _).
      assert (w2 = w1) by congruence. subst w2.
      rewrite Hfc, length_app. simpl length. split; [lia|].
      eexists. split; [apply elem_of_app; right; apply list_elem_of_singleton; reflexivity|].
      split; reflexivity. }
  destruct Hafter as (Hlen1 & e0 & Hin0 & He0).
  destruct (get_index_loop_first name0 style0 (font_cache w1) 0)
    as [[_ Hnone]|(k & e & Hk & He & Hfirst & Hr)]; [right; lia| |].
  { exfalso. exact (Hnone e0 Hin0 He0). }
  assert (Hklen : (k < length (font_cache w1))%nat) by (apply lookup_lt_is_Some; eauto).
  exists (Z.of_nat k), e.
  split.
  { unfold get_index. rewrite bind_get_state. unfold mret, M_ret.
    rewrite Hr. reflexivity. }
  rewrite Nat2Z.id.
  split; [exact Hk|]. split; [lia|]. split; [exact He|].
  split; [apply get_in_range; [exact Hbits|lia|rewrite Nat2Z.id; exact Hk]|].
  intros Hex.
  destruct (ready t) eqn:Hready.
  2:{ destruct (add_with_failed _ name0 style0 w t tr0 Hex Hctor Hready)
        as (tr1 & Hrun1 & _). congruence. }
  destruct (add_with_opened _ name0 style0 w t tr0 Hex Hctor Hready)
    as (w2 & tr2 & Hrun2 & Hfc & Hheap & _).
  assert (w2 = w1) by congruence. subst w2.
  (* no entry of the former registry is for (name, style) *)
  assert (Hold : forall e', e' ∈ font_cache w -> ~ entry_for name0 style0 e').
  { intros e' Hin' Hm. apply same_font_entry_for in Hm.
    assert (existsb (same_font name0 style0) (font_cache w) = true); [|congruence].
    apply existsb_exists. exists e'. split; [apply list_elem_of_In; exact Hin'|exact Hm]. }
  assert (Hkeq : k = length (font_cache w)).
  { rewrite Hfc in Hk.
    destruct (decide (k < length (font_cache w))%nat) as [Hlt|Hge].
    - rewrite lookup_app_l in Hk by exact Hlt.
      exfalso. apply (Hold e); [|exact He]. apply list_elem_of_lookup. eauto.
    - rewrite Hfc, length_app in Hklen. simpl in Hklen. lia. }
  split; [lia|].
  rewrite Hfc, Hkeq, lookup_app_r, Nat.sub_diag in Hk by lia.
  simpl in Hk. injection Hk as <-. simpl.
  eexists _, _. split; [reflexivity|].
  rewrite Hheap, lookup_insert_eq. split; [reflexivity|].
  split; [exact Hready|]. simpl. lia.
Qed.

End FontsLookup.

Section ResetFontIndex.
Context `{Env}.

(** [get_name] on a registry that is not empty: the name of the entry at
    the index, or of the entry at 0 for an index out of range. *)
Lemma get_name_run (w : World) (index : Z) (entry0 : FontEntry) :
  16 <= SIZE_T_BITS ->
  Z.of_nat (length (font_cache w)) <= 32767 ->
  is_int16 index ->
  head (font_cache w) = Some entry0 ->
  exists e tr,
    get_name index w = Done (c_str (name e)) w tr /\
    e ∈ font_cache w /\
    (0 <= index < Z.of_nat (length (font_cache w)) ->
     font_cache w !! Z.to_nat index = Some e /\ tr = []) /\
    (~ (0 <= index < Z.of_nat (length (font_cache w))) -> e = entry0).
Proof.
  intros Hbits Hlen Hidx Hhead. unfold is_int16 in Hidx.
  assert (Hin0 : entry0 ∈ font_cache w).
  { destruct (font_cache w); [discriminate|]. injection Hhead as ->. left. }
  assert (H0 : font_cache w !! 0%nat = Some entry0).
  { destruct (font_cache w); [discriminate|]. exact Hhead. }
  unfold get_name. rewrite bind_get_state.
  destruct (decide (0 <= index < Z.of_nat (length (font_cache w)))) as [Hin|Hout].
  - destruct (lookup_lt_is_Some_2 (font_cache w) (Z.to_nat index)) as [e He]; [lia|].
    rewrite to_size_t_nonneg by lia.
    destruct (decide (index >= Z.of_nat (length (font_cache w)))); [lia|].
    unfold vector_index. rewrite He.
    exists e, []. split; [reflexivity|].
    split; [apply list_elem_of_lookup; eauto|]. split; [auto|]. intros ?; contradiction.
  - assert (Hbig : to_size_t index >= Z.of_nat (length (font_cache w))).
    { destruct (decide (index < 0)) as [Hneg|Hpos].
      - destruct (to_size_t_negative index Hbits) as [_ Hbig]; [lia|].
        destruct (size_t_pow Hbits) as [_ H15]. lia.
      - rewrite to_size_t_nonneg by lia. lia. }
    destruct (decide (to_size_t index >= Z.of_nat (length (font_cache w)))); [|contradiction].
    unfold vector_index. change (Z.to_nat 0) with 0%nat. rewrite H0.
    eexists entry0, _. split; [reflexivity|].
    split; [exact Hin0|]. split; [intros ?; contradiction|reflexivity].
Qed.

(** What a search by [get_index] returns, as a position of the registry. *)
Lemma get_index_result (w : World) (name0 : string) (style0 : FaceStyle) :
  Z.of_nat (length (font_cache w)) <= 32767 ->
  let idx := get_index_loop name0 style0 0 (font_cache w) in
  get_index name0 style0 w = Done idx w [] /\
  (idx = -1 -> ~ registered w name0 style0) /\
  (idx <> -1 ->
   0 <= idx <= 32767 /\
   exists e, font_cache w !! Z.to_nat idx = Some e /\ entry_for name0 style0 e).
Proof.
  intros Hlen idx. subst idx.
  split; [unfold get_index; rewrite bind_get_state; reflexivity|].
  destruct (get_index_loop_first name0 style0 (font_cache w) 0)
    as [[Hr Hnone]|(k & e & Hk & He & _ & Hr)]; [right; lia| |].
  - rewrite Hr. split; [|intros ?; contradiction].
    intros _ (e & Hin & He). exact (Hnone e Hin He).
  - assert (Hklen : (k < length (font_cache w))%nat) by (apply lookup_lt_is_Some; eauto).
    rewrite Hr. split; [lia|]. intros _. split; [lia|].
    exists e. replace (Z.to_nat (0 + Z.of_nat k)) with k by lia. split; assumption.
Qed.

(** X3. [Page::reset_font_index] keeps a format and the registry
    consistent.  On a registry of at most 32767 entries whose entry 1 is of
    style NORMAL (the default face), and with nothing asked when the style
    is the one of the format already: the registry is untouched, only
    [font_index] and [font_style] of the format change, and the entry at the
    new [font_index] has the new [font_style].  The face is looked for in
    the family of the current font first (the font at index 0 when
    [font_index] is out of range), then in the family "Default"; when neither
    has the style, the format falls back to index 1 and style NORMAL. *)
Theorem reset_font_index_consistent (w : World) (fmt : Format) (style0 : FaceStyle)
    (entry0 entry1 : FontEntry) :
  16 <= SIZE_T_BITS ->
  Z.of_nat (length (font_cache w)) <= 32767 ->
  is_int16 (font_index fmt) ->
  head (font_cache w) = Some entry0 ->
  font_cache w !! 1%nat = Some entry1 ->
  style entry1 = NORMAL ->
  (style0 = font_style fmt -> reset_font_index fmt style0 w = Done fmt w []) /\
  (style0 <> font_style fmt ->
   exists fmt' tr family,
     reset_font_index fmt style0 w = Done fmt' w tr /\
     fmt' = set_font (font_index fmt') (font_style fmt') fmt /\
     style_at w (font_index fmt') (font_style fmt') /\
     result_of (get_name (font_index fmt) w) = Some family /\
     ((registered w family style0 /\ font_style fmt' = style0 /\
       exists e, font_cache w !! Z.to_nat (font_index fmt') = Some e /\
                 entry_for family style0 e) \/
      (~ registered w family style0 /\ registered w "Default" style0 /\
       font_style fmt' = style0 /\
       exists e, font_cache w !! Z.to_nat (font_index fmt') = Some e /\
                 entry_for "Default" style0 e) \/
      (~ registered w family style0 /\ ~ registered w "Default" style0 /\
       font_style fmt' = NORMAL /\ font_index fmt' = 1))).
Proof.
  intros Hbits Hlen Hidx Hhead H1 Hs1. split.
  - intros Heq. unfold reset_font_index.
    destruct (decide (style0 <> font_style fmt)); [contradiction|reflexivity].
  - intros Hne. unfold reset_font_index.
    destruct (decide (style0 <> font_style fmt)) as [_|]; [|contradiction].
    destruct (get_name_run w (font_index fmt) entry0 Hbits Hlen Hidx Hhead)
      as (e & tr1 & Hname & _).
    destruct (get_index_result w (c_str (name e)) style0 Hlen) as (Hrun1 & Hnone1 & Hsome1).
    destruct (get_index_result w "Default" style0 Hlen) as (Hrun2 & Hnone2 & Hsome2).
    unfold mbind at 1. unfold M_bind at 1. rewrite Hname.
    unfold mbind at 1. unfold M_bind at 1. rewrite Hrun1.
    set (idx1 := get_index_loop (c_str (name e)) style0 0 (font_cache w)) in *.
    set (idx2 := get_index_loop "Default" style0 0 (font_cache w)) in *.
    destruct (decide (idx1 = -1)) as [Hm1|Hf1].
    + unfold mbind at 1. unfold M_bind at 1. rewrite Hrun2.
      destruct (decide (idx2 = -1)) as [Hm2|Hf2].
      * (* neither family has the style *)
        exists (set_font 1 NORMAL fmt), ((tr1 ++ [] ++ [] ++ [])), (c_str (name e)).
        split; [reflexivity|]. split; [reflexivity|]. split.
        { split; [simpl; lia|]. exists entry1. split; [exact H1|exact Hs1]. }
        split; [first [reflexivity | rewrite Hname; reflexivity]|].
        right. right. split; [auto|]. split; [auto|]. split; reflexivity.
      * destruct (Hsome2 Hf2) as (Hr2 & e2 & He2 & Hfor2).
        exists (set_font idx2 style0 fmt), ((tr1 ++ [] ++ [] ++ [])), (c_str (name e)).
        split; [reflexivity|]. split; [reflexivity|]. split.
        { split; [simpl; lia|]. exists e2. split; [exact He2|apply Hfor2]. }
        split; [first [reflexivity | rewrite Hname; reflexivity]|].
        right. left. split; [auto|]. split.
        { exists e2. split; [apply list_elem_of_lookup; eauto|exact Hfor2]. }
        split; [reflexivity|]. exists e2. split; assumption.
    + destruct (Hsome1 Hf1) as (Hr1 & e1 & He1 & Hfor1).
      unfold mbind at 1. unfold M_bind at 1. unfold mret at 1. unfold M_ret at 1.
      destruct (decide (idx1 = -1)); [contradiction|].
      exists (set_font idx1 style0 fmt), ((tr1 ++ [] ++ [] ++ [])), (c_str (name e)).
      split; [reflexivity|]. split; [reflexivity|]. split.
      { split; [simpl; lia|]. exists e1. split; [exact He1|apply Hfor1]. }
      split; [first [reflexivity | rewrite Hname; reflexivity]|].
      left. split.
      { exists e1. split; [apply list_elem_of_lookup; eauto|exact Hfor1]. }
      split; [reflexivity|]. exists e1. split; assumption.
Qed.

End ResetFontIndex.

(* ===================================================================== *)
(** * Further properties of the glyph cache *)
(* ===================================================================== *)

Section TTFInvariant.
Context `{Env}.

(** [set_font_size] keeps the invariant, whether FreeType takes the size or
    not. *)
Lemma set_font_size_inv (t : TTF) (size : Z) :
  TTF_inv t ->
  exists b t' tr,
    set_font_size size t = Done b t' tr /\ TTF_inv t' /\
    cache t' = cache t /\
    (b = true -> current_size t' = size) /\
    (b = false -> t' = t).
Proof.
  intros Hinv. unfold set_font_size. exec.
  destruct (face t) as [f|] eqn:Hface.
  - destruct (FT_Set_Char_Size (handle f) (size * 64)) as [u|err]; simpl.
    + eexists _, _, _. split; [reflexivity|]. simpl.
      split; [|split; [reflexivity|split; [reflexivity|discriminate]]].
      destruct Hinv as [Hs Hc Hi Hcur]. split; simpl.
      * intros f' [= <-] _. reflexivity.
      * intros f' n c g [= <-] Hfind Hn.
        exact (Hc f n c g Hface Hfind Hn).
      * intros f' n c g [= <-] Hfind. simpl.
        exact (Hi f n c g Hface Hfind).
      * exact Hcur.
    + eexists _, _, _. split; [reflexivity|].
      split; [exact Hinv|]. split; [reflexivity|].
      split; [discriminate|reflexivity].
  - eexists _, _, _. split; [reflexivity|].
    split; [exact Hinv|]. split; [reflexivity|].
    split; [discriminate|reflexivity].
Qed.

(** The loop of [get_size] keeps the invariant. *)
Lemma get_size_loop_inv (str : list Byte.byte) (n : Z) :
  forall t w up down r t' tr,
    TTF_inv t ->
    get_size_loop str n w up down t = Done r t' tr ->
    TTF_inv t'.
Proof.
  induction str as [|ch rest IH]; intros t w up down r t' tr Hinv Hrun.
  - injection Hrun as _ <- _. exact Hinv.
  - simpl in Hrun. destruct (Byte.eqb ch Byte.x00).
    + injection Hrun as _ <- _. exact Hinv.
    + unfold mbind at 1 in Hrun. unfold M_bind at 1 in Hrun.
      destruct (get_glyph_internal (char_to_int32 ch) n t) as [g t1 tr1|] eqn:Hg;
        [|discriminate].
      destruct (get_glyph_internal_preserves t _ n g t1 tr1 Hinv Hg) as (Hinv1 & _).
      destruct g as [g|].
      * destruct (get_size_loop rest n _ _ _ t1) as [r2 t2 tr2|] eqn:Hloop; [|discriminate].
        injection Hrun as _ <- _. exact (IH _ _ _ _ _ _ _ Hinv1 Hloop).
      * destruct (get_size_loop rest n _ _ _ t1) as [r2 t2 tr2|] eqn:Hloop; [|discriminate].
        injection Hrun as _ <- _. exact (IH _ _ _ _ _ _ _ Hinv1 Hloop).
Qed.

(** Loading a font into an object whose face is open: the old face is
    cleared first. *)
Lemma set_font_face_from_memory_open (t : TTF) (buffer : list Byte.byte) (size : Z) :
  face t <> None ->
  exists b t' tr,
    set_font_face_from_memory buffer size t = Done b t' tr /\
    cache t' = ∅ /\ byte_pools t' = [] /\ current_size t' = -1 /\
    match FT_New_Memory_Face buffer size with
    | FT_Ok h =>
        b = true /\ face t' = Some {| handle := h; char_height := None |} /\
        memory_font t' = Some buffer
    | FT_Err _ => b = false /\ face t' = None /\ memory_font t' = memory_font t
    end.
Proof.
  intros Hopen. unfold set_font_face_from_memory. exec.
  destruct (decide (face t <> None)); [|contradiction]. simpl.
  destruct (FT_New_Memory_Face buffer size); simpl;
    eexists _, _, _; (split; [reflexivity|]); repeat split; reflexivity.
Qed.

(** X4. The invariant of [TTF] is an invariant of the class: every object a
    constructor builds has it (and is ready exactly when its font resource
    opened), and [get_glyph], [get_size], [set_font_size], [clear_cache],
    [clear_face] and, on an open face, [set_font_face_from_memory] keep it,
    whatever their arguments and whatever FreeType answers. *)
Theorem TTF_inv_kept :
  (forall src, exists t tr,
     constructor_of src TTF_raw = Done tt t tr /\
     TTF_inv t /\ ready t = source_opens src) /\
  (forall t, TTF_inv t ->
     (forall charcode glyph_size r t' tr,
        get_glyph charcode glyph_size t = Done r t' tr -> TTF_inv t') /\
     (forall str glyph_size d t' tr,
        get_size str glyph_size t = Done d t' tr -> TTF_inv t') /\
     (forall size, exists b t' tr,
        set_font_size size t = Done b t' tr /\ TTF_inv t') /\
     (exists t', clear_cache t = Done tt t' [] /\ TTF_inv t') /\
     (exists t', clear_face t = Done tt t' [] /\ TTF_inv t') /\
     (forall buffer size, face t <> None ->
        exists b t' tr,
          set_font_face_from_memory buffer size t = Done b t' tr /\ TTF_inv t')).
Proof.
  split.
  - intros src.
    destruct (constructor_run src) as (t & tr & Hctor & Hready & _ & Hc & Hs & Hp).
    exists t, tr. split; [exact Hctor|]. split; [|exact Hready].
    apply TTF_inv_fresh; assumption.
  - intros t Hinv. split; [|split; [|split; [|split; [|split]]]].
    + intros c s r t' tr Hrun.
      exact (proj1 (get_glyph_internal_preserves t c s r t' tr Hinv Hrun)).
    + intros str n d t' tr Hrun. unfold get_size in Hrun.
      unfold mbind, M_bind in Hrun.
      destruct (get_size_loop str n 0 0 0 t) as [[[w up] down] t1 tr1|] eqn:Hloop;
        [|discriminate].
      simpl in Hrun. injection Hrun as _ <- _.
      exact (get_size_loop_inv str n _ _ _ _ _ _ _ Hinv Hloop).
    + intros size. destruct (set_font_size_inv t size Hinv) as (b & t' & tr & Hrun & Hinv' & _).
      eauto.
    + destruct (clear_cache_inv t Hinv) as (t' & Hrun & Hinv' & _). eauto.
    + destruct (clear_face_run t) as (t' & Hrun & _ & Hs & Hc & Hp).
      exists t'. split; [exact Hrun|]. apply TTF_inv_fresh; assumption.
    + intros buffer size Hopen.
      destruct (set_font_face_from_memory_open t buffer size Hopen)
        as (b & t' & tr & Hrun & Hc & Hp & Hs & _).
      exists b, t', tr. split; [exact Hrun|]. apply TTF_inv_fresh; assumption.
Qed.

(** X5. Loading another font into an open face keeps nothing of the old
    one: the glyph cache and the byte pool are emptied and the size is
    forgotten before FreeType is asked, so that on success the first
    [get_glyph] at any size but -1 re-configures the new face, and on a
    failure the object is left without a face ([get_glyph] returns null from
    then on) although it had one. *)
Theorem reload_drops_old_face (t : TTF) (buffer : list Byte.byte) (size : Z) :
  face t <> None ->
  exists b t' tr,
    set_font_face_from_memory buffer size t = Done b t' tr /\
    cache t' = ∅ /\ byte_pools t' = [] /\ current_size t' = -1 /\
    (forall h, FT_New_Memory_Face buffer size = FT_Ok h ->
       b = true /\ ready t' = true /\
       forall charcode glyph_size, glyph_size <> -1 ->
         reconfigures (trace_of (get_glyph charcode glyph_size t')) = true) /\
    (forall error, FT_New_Memory_Face buffer size = FT_Err error ->
       b = false /\ ready t' = false /\
       forall charcode glyph_size,
         get_glyph charcode glyph_size t' = Done None t' []).
Proof.
  intros Hopen.
  destruct (set_font_face_from_memory_open t buffer size Hopen)
    as (b & t' & tr & Hrun & Hc & Hp & Hs & Hres).
  exists b, t', tr. split; [exact Hrun|].
  split; [exact Hc|]. split; [exact Hp|]. split; [exact Hs|]. split.
  - intros h Hok. rewrite Hok in Hres. destruct Hres as (-> & Hface & _).
    split; [reflexivity|]. split.
    + unfold ready. rewrite Hface. apply bool_decide_eq_true_2. discriminate.
    + intros c s Hn. unfold get_glyph.
      apply get_glyph_internal_reconfigures; [apply TTF_inv_fresh; assumption|].
      split; [rewrite Hface; discriminate|]. split; [|rewrite Hs; congruence].
      unfold cache_find. rewrite Hc, lookup_empty. reflexivity.
  - intros err Herr. rewrite Herr in Hres. destruct Hres as (-> & Hface & _).
    split; [reflexivity|]. split.
    + unfold ready. rewrite Hface. apply bool_decide_eq_false_2. intros Hn. apply Hn. reflexivity.
    + intros c s. unfold get_glyph. rewrite get_glyph_internal_unfold, Hface. reflexivity.
Qed.


(** X7. A failed render loses an element of the glyph pool: when the glyph
    of a charcode that is not in the cache loads as an outline and
    [FT_Render_Glyph] fails, [get_glyph] returns null and leaves the cache as
    it was, but the [BitmapGlyph] it took from the pool is not given back;
    [clear_cache], which returns cached glyphs only, does not return it
    either. *)
Theorem failed_render_leaks_glyph (t : TTF) (f : FT_FaceRec) (charcode : Z)
    (slot : FT_GlyphSlot) (error : Z) :
  face t = Some f ->
  cache_find (cache t) (current_size t) charcode = None ->
  FT_Get_Char_Index (handle f) charcode <> 0 ->
  FT_Load_Glyph f (FT_Get_Char_Index (handle f) charcode) = FT_Ok slot ->
  format_is_bitmap slot = false ->
  FT_Render_Glyph slot (bool_decide (screen_pixel_resolution = ONE_BIT)) = FT_Err error ->
  exists t' tr,
    get_glyph charcode (current_size t) t = Done None t' tr /\
    cache t' = cache t /\
    bitmap_glyph_pool t' = S (bitmap_glyph_pool t) /\
    exists t'', clear_cache t' = Done tt t'' [] /\
      (bitmap_glyph_pool t'' = S (bitmap_glyph_pool t) - cache_count (cache t))%nat.
Proof.
  intros Hface Hmiss Hidx Hload Hfmt Hrender.
  unfold get_glyph. rewrite get_glyph_internal_unfold, Hface, Hmiss.
  destruct (decide (current_size t <> current_size t)) as [Hne|_]; [contradiction|].
  unfold rasterize_and_store, render_slot. exec. rewrite Hface.
  destruct (decide (FT_Get_Char_Index (handle f) charcode = 0)); [contradiction|].
  simpl. rewrite Hload. simpl. rewrite Hfmt. simpl. rewrite Hrender. simpl.
  eexists _, _. split; [reflexivity|]. simpl.
  split; [reflexivity|]. split; [reflexivity|].
  eexists. split; reflexivity.
Qed.

End TTFInvariant.

Section PoolLayout.
Context `{Env}.











End PoolLayout.

Section RegistryInvariant.
Context `{Env}.

(** The loop of [clear_glyph_caches] over entries that point to live,
    distinct faces. *)
Lemma clear_glyph_caches_loop_run (entries : list FontEntry) :
  forall w : World,
    (forall e, e ∈ entries -> exists l t, font e = Some l /\ heap w !! l = Some t) ->
    NoDup (font <$> entries) ->
    exists w',
      clear_glyph_caches_loop entries w = Done tt w' [] /\
      font_cache w' = font_cache w /\ page w' = page w /\
      (forall l, Some l ∉ font <$> entries -> heap w' !! l = heap w !! l) /\
      (forall e l t,
         e ∈ entries -> font e = Some l -> heap w !! l = Some t ->
         exists t', clear_cache t = Done tt t' [] /\ heap w' !! l = Some t').
Proof.
  induction entries as [|e rest IH]; intros w Hlive Hdistinct.
  - exists w. split; [reflexivity|]. split; [reflexivity|]. split; [reflexivity|].
    split; [reflexivity|]. intros e l t He. inversion He.
  - rewrite fmap_cons in Hdistinct. apply NoDup_cons in Hdistinct as [Hfresh Hdistinct].
    destruct (Hlive e ltac:(left)) as (l & t & Hfont & Hl).
    destruct (purge_run w l t Hl) as (t1 & Hcc & Hrun1).
    assert (Hnotin : forall e', e' ∈ rest -> font e' <> Some l).
    { intros e' He' Heq. apply Hfresh. rewrite Hfont, <- Heq.
      apply list_elem_of_fmap. exists e'. split; [reflexivity|exact He']. }
    destruct (IH (set_heap (<[l := t1]> (heap w)) w))
      as (w' & Hrun & Hfc & Hpage & Hframe & Hent).
    { intros e' He'. destruct (Hlive e' ltac:(right; exact He')) as (l' & t' & Hf' & Hl').
      exists l', t'. split; [exact Hf'|]. simpl.
      rewrite lookup_insert_ne; [exact Hl'|].
      intros ->. apply (Hnotin e' He'). exact Hf'. }
    { exact Hdistinct. }
    exists w'. simpl. unfold mbind, M_bind. rewrite Hfont, Hrun1, Hrun. simpl.
    split; [reflexivity|]. split; [exact Hfc|]. split; [exact Hpage|]. split.
    + intros l' Hl'. rewrite ?fmap_cons in Hl'. simpl in Hl'.
      apply not_elem_of_cons in Hl' as [Hne Hl'].
      rewrite (Hframe l' Hl'). simpl. apply lookup_insert_ne.
      rewrite ?Hfont in Hne. congruence.
    + intros e' l' t' He' Hf' Hl'. apply elem_of_cons in He' as [->|He'].
      * rewrite Hfont in Hf'. injection Hf' as <-.
        rewrite Hl in Hl'. injection Hl' as <-.
        exists t1. split; [exact Hcc|].
        rewrite (Hframe l); [simpl; apply lookup_insert_eq|].
        intros Hin. apply list_elem_of_fmap in Hin as (e' & He' & Hin).
        apply (Hnotin e' Hin). symmetry. exact He'.
      * assert (Hne : l' <> l) by (intros ->; exact (Hnotin e' He' Hf')).
        apply (Hent e' l' t' He' Hf'). simpl.
        rewrite lookup_insert_ne by congruence. exact Hl'.
Qed.

Lemma usable_empty (w : World) : font_cache w = [] -> usable w.
Proof.
  intros Hnil. split; [apply Fonts_inv_empty, Hnil|].
  intros e l t He. rewrite Hnil in He. inversion He.
Qed.

Lemma usable_add (w w1 : World) (name0 : string) (style0 : FaceStyle) (src : Source)
    (r : bool) (tr : list Event) :
  usable w ->
  add_source name0 style0 src w = Done r w1 tr ->
  usable w1.
Proof.
  intros [Hinv Hopen] Hrun.
  split; [exact (add_source_inv w w1 name0 style0 src r tr Hinv Hrun)|].
  rewrite add_source_with in Hrun.
  destruct (constructor_run src) as (t & tr0 & Hctor & _).
  destruct (existsb (same_font name0 style0) (font_cache w)) eqn:Hex.
  { rewrite add_with_present in Hrun by exact Hex.
    assert (w1 = w) by congruence. subst w1. exact Hopen. }
  destruct (ready t) eqn:Hready.
  2:{ destruct (add_with_failed _ name0 style0 w t tr0 Hex Hctor Hready) as (tr1 & Hrun1 & _).
      assert (w1 = w) by congruence. subst w1. exact Hopen. }
  destruct (add_with_opened _ name0 style0 w t tr0 Hex Hctor Hready)
    as (w2 & tr2 & Hrun2 & Hfc & Hheap & _).
  assert (w2 = w1) by congruence. subst w2.
  intros e l t' He Hf Hl. rewrite Hfc in He. rewrite Hheap in Hl.
  apply elem_of_app in He as [He|He].
  - destruct (inv_live w Hinv e He) as (l0 & t0 & Hf0 & Hl0).
    rewrite Hf in Hf0. injection Hf0 as <-.
    rewrite lookup_insert_ne in Hl.
    + exact (Hopen e l t' He Hf Hl).
    + intros <-. rewrite fresh_loc_free in Hl0. discriminate.
  - apply list_elem_of_singleton in He as ->. simpl in Hf. injection Hf as <-.
    rewrite lookup_insert_eq in Hl. injection Hl as <-. simpl.
    unfold ready in Hready. apply bool_decide_eq_true in Hready. exact Hready.
Qed.

Lemma usable_clear (w : World) (all : bool) :
  usable w ->
  all = true \/ (5 <= length (font_cache w))%nat \/ USE_EPUB_FONTS = false ->
  exists w', clear all w = Done tt w' [] /\ usable w'.
Proof.
  intros [Hinv Hopen] Hcase. unfold clear.
  destruct USE_EPUB_FONTS eqn:Hepub.
  2:{ exists w. split; [reflexivity|]. split; assumption. }
  destruct (clear_loop_run all (font_cache w) 0 w (inv_live w Hinv) (inv_distinct w Hinv))
    as (w' & Hrun & Hfc & Hpage & _ & Hent).
  rewrite bind_get_state. unfold mbind, M_bind. rewrite Hrun. simpl.
  eexists. split; [reflexivity|].
  destruct all.
  - apply usable_empty. reflexivity.
  - destruct Hcase as [?|[Hfive|?]]; try discriminate.
    assert (Hres : resize 5 (font_cache w') = take 5 (font_cache w)).
    { unfold resize. rewrite Hfc.
      replace (5 - length (font_cache w))%nat with 0%nat by lia. apply app_nil_r. }
    assert (Hkept : forall e, e ∈ take 5 (font_cache w) ->
              exists (k : nat) l t t',
                (k < 5)%nat /\ font_cache w !! k = Some e /\ font e = Some l /\
                heap w !! l = Some t /\ clear_cache t = Done tt t' [] /\
                heap w' !! l = Some t').
    { intros e He. apply list_elem_of_lookup in He as (k & Hk).
      apply lookup_take_Some in Hk as [Hk Hlt].
      destruct (inv_live w Hinv e) as (l & t & Hf & Hl); [apply list_elem_of_lookup; eauto|].
      pose proof (Hent k e l t Hk Hf Hl) as Hpurged. simpl in Hpurged.
      rewrite bool_decide_eq_false_2 in Hpurged by lia.
      destruct Hpurged as (t' & Hcc & Hl').
      exists k, l, t, t'. repeat split; assumption. }
    split; [split|]; simpl; rewrite Hres.
    + intros e He. destruct (Hkept e He) as (k & l & t & t' & _ & _ & Hf & _ & _ & Hl').
      exists l, t'. split; assumption.
    + rewrite fmap_take. eapply sublist_NoDup; [|apply sublist_take].
      exact (inv_distinct w Hinv).
    + intros e l t' He Hf Hl'.
      destruct (Hkept e He) as (k & l0 & t & t0 & _ & Hk & Hf0 & Hl & Hcc & Hl0).
      rewrite Hf in Hf0. injection Hf0 as <-.
      rewrite Hl' in Hl0. injection Hl0 as <-.
      destruct (clear_cache_run t) as (t1 & Hcc1 & Hface & _).
      assert (t1 = t') by congruence. subst t1. rewrite Hface.
      apply (Hopen e l t); [apply list_elem_of_lookup; eauto|exact Hf|exact Hl].
Qed.

Lemma usable_clear_glyph_caches (w : World) :
  usable w ->
  exists w',
    clear_glyph_caches w = Done tt w' [] /\ usable w' /\
    font_cache w' = font_cache w /\ page w' = page w /\
    forall e l t', e ∈ font_cache w -> font e = Some l -> heap w' !! l = Some t' ->
      cache t' = ∅ /\ byte_pools t' = [] /\
      exists t, heap w !! l = Some t /\ face t' = face t /\
                current_size t' = current_size t.
Proof.
  intros [Hinv Hopen].
  destruct (clear_glyph_caches_loop_run (font_cache w) w (inv_live w Hinv)
              (inv_distinct w Hinv)) as (w' & Hrun & Hfc & Hpage & _ & Hent).
  exists w'. unfold clear_glyph_caches. rewrite bind_get_state.
  split; [exact Hrun|].
  assert (Hpurged : forall e l t', e ∈ font_cache w -> font e = Some l ->
            heap w' !! l = Some t' ->
            exists t, heap w !! l = Some t /\ clear_cache t = Done tt t' []).
  { intros e l t' He Hf Hl'.
    destruct (inv_live w Hinv e He) as (l0 & t & Hf0 & Hl).
    rewrite Hf in Hf0. injection Hf0 as <-.
    destruct (Hent e l t He Hf Hl) as (t1 & Hcc & Hl1).
    exists t. split; [exact Hl|]. congruence. }
  split; [|split; [exact Hfc|split; [exact Hpage|]]].
  - split; [split|]; rewrite ?Hfc.
    + intros e He. destruct (inv_live w Hinv e He) as (l & t & Hf & Hl).
      destruct (Hent e l t He Hf Hl) as (t1 & _ & Hl1). eauto.
    + exact (inv_distinct w Hinv).
    + intros e l t' He Hf Hl'.
      destruct (Hpurged e l t' He Hf Hl') as (t & Hl & Hcc).
      destruct (clear_cache_run t) as (t1 & Hcc1 & Hface & _).
      assert (t1 = t') by congruence. subst t1. rewrite Hface.
      exact (Hopen e l t He Hf Hl).
  - intros e l t' He Hf Hl'.
    destruct (Hpurged e l t' He Hf Hl') as (t & Hl & Hcc).
    destruct (clear_cache_run t) as (t1 & Hcc1 & Hface & Hsize & _ & _ & Hc & Hp).
    assert (t1 = t') by congruence. subst t1.
    split; [exact Hc|]. split; [exact Hp|]. exists t. auto.
Qed.

(** X9. The faces of the registry stay usable.  The property that every
    entry points to a live, open face of its own holds on the empty registry
    and is kept by [add] (whatever it returns), by [clear(true)], by
    [clear(false)] on a registry of at least five entries (or in a build
    without [USE_EPUB_FONTS]) and by [clear_glyph_caches]; under it, [get]
    with any 16-bit index on a registry that is not empty returns a pointer
    to a live, open face. *)
Theorem registry_stays_usable :
  (forall w, font_cache w = [] -> usable w) /\
  (forall w w1 name0 style0 src r tr,
     usable w -> add_source name0 style0 src w = Done r w1 tr -> usable w1) /\
  (forall w all,
     usable w ->
     all = true \/ (5 <= length (font_cache w))%nat \/ USE_EPUB_FONTS = false ->
     exists w', clear all w = Done tt w' [] /\ usable w') /\
  (forall w, usable w ->
     exists w', clear_glyph_caches w = Done tt w' [] /\ usable w') /\
  (forall w index,
     16 <= SIZE_T_BITS ->
     Z.of_nat (length (font_cache w)) < 2 ^ (SIZE_T_BITS - 1) ->
     is_int16 index ->
     font_cache w <> [] ->
     usable w ->
     exists l t tr,
       get index w = Done (Some l) w tr /\ heap w !! l = Some t /\ ready t = true).
Proof.
  split; [exact usable_empty|]. split; [exact usable_add|].
  split; [intros w all; apply usable_clear|]. split.
  - intros w Hu. destruct (usable_clear_glyph_caches w Hu) as (w' & Hrun & Hu' & _). eauto.
  - intros w index Hbits Hmax Hidx Hne [Hinv Hopen]. unfold is_int16 in Hidx.
    assert (Hgot : exists e tr, e ∈ font_cache w /\ get index w = Done (font e) w tr).
    { assert (Hhead : exists e0, head (font_cache w) = Some e0).
      { destruct (font_cache w) as [|e0 rest]; [contradiction|]. exists e0. reflexivity. }
      destruct Hhead as (e0 & Hhead).
      destruct (decide (0 <= index < Z.of_nat (length (font_cache w)))) as [Hin|Hout].
      - destruct (lookup_lt_is_Some_2 (font_cache w) (Z.to_nat index)) as [e He]; [lia|].
        exists e, []. split; [apply list_elem_of_lookup; eauto|].
        apply get_in_range; [exact Hbits|lia|exact He].
      - exists e0. eexists. split.
        + destruct (font_cache w); [discriminate|]. injection Hhead as ->. left.
        + apply get_out_of_range; [exact Hhead|].
          destruct (decide (index < 0)) as [Hneg|Hpos].
          * destruct (to_size_t_negative index Hbits) as [_ Hbig]; lia.
          * rewrite to_size_t_nonneg by lia. lia. }
    destruct Hgot as (e & tr & He & Hrun).
    destruct (inv_live w Hinv e He) as (l & t & Hf & Hl).
    exists l, t, tr. rewrite <- Hf. split; [exact Hrun|]. split; [exact Hl|].
    unfold ready. apply bool_decide_eq_true_2. exact (Hopen e l t He Hf Hl).
Qed.

(** X10. [clear_glyph_caches] empties the glyph cache and the byte pool of
    every face of the registry and touches nothing else: the registry and
    the page are as before, and each face keeps its font resource and its
    current size. *)
Theorem clear_glyph_caches_purges (w : World) :
  usable w ->
  exists w',
    clear_glyph_caches w = Done tt w' [] /\
    font_cache w' = font_cache w /\ page w' = page w /\
    forall e l t', e ∈ font_cache w -> font e = Some l -> heap w' !! l = Some t' ->
      cache t' = ∅ /\ byte_pools t' = [] /\
      exists t, heap w !! l = Some t /\ face t' = face t /\
                current_size t' = current_size t.
Proof.
  intros Hu. destruct (usable_clear_glyph_caches w Hu) as (w' & Hrun & _ & Hrest).
  exists w'. split; [exact Hrun|exact Hrest].
Qed.

(** A loop of [clear_glyph_caches] that meets a null font after live ones
    faults. *)
Lemma clear_glyph_caches_loop_null (live : list FontEntry) (e : FontEntry)
    (rest : list FontEntry) :
  font e = None ->
  forall w : World,
    (forall e', e' ∈ live -> exists l t, font e' = Some l /\ heap w !! l = Some t) ->
    NoDup (font <$> live) ->
    clear_glyph_caches_loop (live ++ e :: rest) w = Failed NullDeref [].
Proof.
  intros Hnull. induction live as [|e1 live IH]; intros w Hlive Hdistinct.
  - simpl. unfold mbind, M_bind, on_font. rewrite Hnull. reflexivity.
  - rewrite fmap_cons in Hdistinct. apply NoDup_cons in Hdistinct as [Hfresh Hdistinct].
    destruct (Hlive e1 ltac:(left)) as (l & t & Hfont & Hl).
    destruct (purge_run w l t Hl) as (t1 & Hcc & Hrun1).
    simpl. unfold mbind, M_bind. rewrite Hfont, Hrun1.
    rewrite IH; [reflexivity| |exact Hdistinct].
    intros e' He'. destruct (Hlive e' ltac:(right; exact He')) as (l' & t' & Hf' & Hl').
    exists l', t'. split; [exact Hf'|]. simpl.
    rewrite lookup_insert_ne; [exact Hl'|].
    intros ->. apply Hfresh. rewrite Hfont, <- Hf'.
    apply list_elem_of_fmap. exists e'. split; [reflexivity|exact He'].
Qed.

(** X11. [clear(false)] on a registry of fewer than five entries leaves null
    fonts behind.  In a build with [USE_EPUB_FONTS], on a registry of live,
    distinct faces: the call succeeds and the registry has five entries, the
    former ones followed by value-initialised ones; [get] of a position it
    added returns a null pointer without a log, and [clear_glyph_caches], which
    calls [clear_cache] through every font pointer, faults on the first of
    them. *)
Theorem clear_short_registry_leaves_null_fonts (w : World) :
  USE_EPUB_FONTS = true ->
  16 <= SIZE_T_BITS ->
  Fonts_inv w ->
  (length (font_cache w) < 5)%nat ->
  exists w',
    clear false w = Done tt w' [] /\
    font_cache w' =
      font_cache w ++ replicate (5 - length (font_cache w)) FontEntry_default /\
    (forall index,
       Z.of_nat (length (font_cache w)) <= index < 5 ->
       get index w' = Done None w' []) /\
    clear_glyph_caches w' = Failed NullDeref [].
Proof.
  intros Hepub Hbits Hinv Hshort.
  destruct (clear_loop_run false (font_cache w) 0 w (inv_live w Hinv) (inv_distinct w Hinv))
    as (w1 & Hrun & Hfc & Hpage & _ & Hent).
  unfold clear. rewrite Hepub, bind_get_state.
  unfold mbind, M_bind. rewrite Hrun. simpl.
  eexists. split; [reflexivity|]. simpl.
  assert (Hres : resize 5 (font_cache w1) =
                 font_cache w ++ replicate (5 - length (font_cache w)) FontEntry_default).
  { unfold resize. rewrite Hfc, take_ge by lia. reflexivity. }
  split; [exact Hres|]. split.
  - intros index Hidx.
    apply (get_in_range _ index FontEntry_default Hbits); [lia|]. simpl.
    rewrite Hres, lookup_app_r by lia.
    apply lookup_replicate. split; [reflexivity|lia].
  - unfold clear_glyph_caches. rewrite bind_get_state. simpl. rewrite Hres.
    destruct (5 - length (font_cache w))%nat as [|n] eqn:Hn; [lia|]. simpl.
    apply clear_glyph_caches_loop_null; [reflexivity| |exact (inv_distinct w Hinv)].
    intros e He. destruct (inv_live w Hinv e He) as (l & t & Hf & Hl).
    pose proof (proj1 (list_elem_of_lookup _ _) He) as (k & Hk).
    pose proof (Hent k e l t Hk Hf Hl) as Hpurged. simpl in Hpurged.
    assert (Hklt : (k < length (font_cache w))%nat) by (apply lookup_lt_is_Some; eauto).
    rewrite bool_decide_eq_false_2 in Hpurged by lia.
    destruct Hpurged as (t' & _ & Hl'). eauto.
Qed.

End RegistryInvariant.

Section Setup.
Context `{Env}.

(** Two continuations that agree give the same computation. *)
Lemma bind_ext {S A B} (m : M S A) (k1 k2 : A -> M S B) (s : S) :
  (forall a s', k1 a s' = k2 a s') -> (m ≫= k1) s = (m ≫= k2) s.
Proof.
  intros Hk. unfold mbind, M_bind. destruct (m s) as [a s1 tr1|]; [|reflexivity].
  rewrite Hk. reflexivity.
Qed.

(** [setup] is its log, [clear(true)] and the run of [add] over
    [setup_fonts]. *)
Lemma setup_as_add_all (FONTS_FOLDER : string) (w : World) :
  setup FONTS_FOLDER w =
  (emit (LOG_D "Fonts initialization" []);; clear true;;
   add_all (setup_fonts FONTS_FOLDER)) w.
Proof.
  unfold setup. apply bind_ext. intros _ w1. apply bind_ext. intros _ w2. cbv zeta.
  apply bind_ext. intros [|] w3; [|reflexivity]. simpl negb. cbv iota.
  apply bind_ext. intros [|] w4; [|reflexivity]. simpl negb. cbv iota.
  apply bind_ext. intros [|] w5; [|reflexivity]. simpl negb. cbv iota.
  apply bind_ext. intros [|] w6; [|reflexivity]. simpl negb. cbv iota.
  apply bind_ext. intros [|] w7; [|reflexivity]. simpl negb. cbv iota.
  reflexivity.
Qed.

Lemma not_registered_existsb (name0 : string) (style0 : FaceStyle) (l : list FontEntry) :
  (name0, style0) ∉ entry_key <$> l -> existsb (same_font name0 style0) l = false.
Proof.
  intros Hnot. apply not_true_is_false. intros Hex.
  apply existsb_exists in Hex as (e & Hin & Hm).
  apply same_font_entry_for in Hm as [Hn Hs]. apply Hnot.
  apply list_elem_of_fmap. exists e. split; [unfold entry_key; congruence|].
  apply list_elem_of_In. exact Hin.
Qed.

(** A run of [add] over faces that are not registered yet and differ from
    one another: it registers the faces up to the first whose file does not
    open, in order, and returns true when there is none. *)
Lemma add_all_run (l : list (string * FaceStyle * string)) :
  NoDup (face_key <$> l) ->
  forall w,
    usable w ->
    (forall k, k ∈ face_key <$> l -> k ∉ entry_key <$> font_cache w) ->
    exists w' tr,
      add_all l w = Done (forallb (fun x => source_opens (FromFile x.2)) l) w' tr /\
      entry_key <$> font_cache w' =
        (entry_key <$> font_cache w) ++ (face_key <$> opened_prefix l) /\
      usable w' /\ page w' = page w.
Proof.
  induction l as [|[[name0 style0] filename] rest IH]; intros Hnd w Hu Hnew.
  - exists w, []. simpl. rewrite app_nil_r. repeat split; try reflexivity; apply Hu.
  - rewrite fmap_cons in Hnd. apply NoDup_cons in Hnd as [Hfirst Hnd].
    assert (Hex : existsb (same_font name0 style0) (font_cache w) = false).
    { apply not_registered_existsb. apply Hnew. left. }
    destruct (constructor_run (FromFile filename)) as (t & tr0 & Hctor & Hready & _).
    simpl in Hctor. cbn [add_all forallb opened_prefix snd fst].
    destruct (source_opens (FromFile filename)) eqn:Hopens.
    + destruct (add_with_opened _ name0 style0 w t tr0 Hex Hctor Hready)
        as (w1 & tr1 & Hrun1 & Hfc & Hheap & Hpage).
      assert (Hu1 : usable w1).
      { apply (usable_add w w1 name0 style0 (FromFile filename) true tr1 Hu). exact Hrun1. }
      destruct (IH Hnd w1 Hu1) as (w' & tr & Hrun & Hkeys & Hu' & Hpage').
      { intros k Hk Hin. rewrite Hfc, fmap_app in Hin.
        apply elem_of_app in Hin as [Hin|Hin].
        - apply (Hnew k); [right; exact Hk|exact Hin].
        - simpl in Hin. apply list_elem_of_singleton in Hin. subst k.
          apply Hfirst. exact Hk. }
      exists w', (tr1 ++ tr). unfold mbind, M_bind. unfold add. rewrite Hrun1, Hrun.
      split; [reflexivity|]. split; [|split; [exact Hu'|congruence]].
      rewrite Hkeys, Hfc, fmap_app, <- app_assoc. reflexivity.
    + destruct (add_with_failed _ name0 style0 w t tr0 Hex Hctor Hready) as (tr1 & Hrun1 & _).
      exists w, (tr1 ++ []). unfold mbind, M_bind. unfold add. rewrite Hrun1.
      split; [reflexivity|]. rewrite app_nil_r. repeat split; try reflexivity; apply Hu.
Qed.

Lemma clear_true_empty (w : World) :
  font_cache w = [] -> clear true w = Done tt w [].
Proof.
  intros Hnil. unfold clear. destruct USE_EPUB_FONTS; [|reflexivity].
  rewrite bind_get_state. cbv beta. rewrite Hnil. exec.
  unfold set_font_cache, resize. simpl.
  f_equal. rewrite <- Hnil. apply World_eta.
Qed.

(** X12. [Fonts::setup] on an empty registry registers the built-in faces
    in a fixed order up to the first file that does not open, and returns
    true exactly when every file opened.  After a call that returned true the
    registry holds, in this order, ("Drawings", NORMAL), ("Default", NORMAL),
    ("Default", BOLD), ("Default", ITALIC), ("Default", BOLD_ITALIC) and
    ("Chess1", NORMAL) to ("Chess7", NORMAL); in every case each entry points
    to a live, open face of its own and the page is untouched. *)
Theorem setup_registers_builtin_fonts (FONTS_FOLDER : string) (w : World) :
  font_cache w = [] ->
  exists w' tr,
    setup FONTS_FOLDER w =
      Done (forallb (fun x => source_opens (FromFile x.2)) (setup_fonts FONTS_FOLDER)) w' tr /\
    entry_key <$> font_cache w' = face_key <$> opened_prefix (setup_fonts FONTS_FOLDER) /\
    usable w' /\ page w' = page w /\
    (forallb (fun x => source_opens (FromFile x.2)) (setup_fonts FONTS_FOLDER) = true ->
     entry_key <$> font_cache w' =
       [ ("Drawings", NORMAL); ("Default", NORMAL); ("Default", BOLD);
         ("Default", ITALIC); ("Default", BOLD_ITALIC);
         ("Chess1", NORMAL); ("Chess2", NORMAL); ("Chess3", NORMAL);
         ("Chess4", NORMAL); ("Chess5", NORMAL); ("Chess6", NORMAL);
         ("Chess7", NORMAL) ]).
Proof.
  intros Hnil.
  destruct (add_all_run (setup_fonts FONTS_FOLDER)) with (w := w)
    as (w' & tr & Hrun & Hkeys & Hu & Hpage).
  { apply (bool_decide_unpack _). vm_compute. exact I. }
  { apply usable_empty, Hnil. }
  { intros k _. rewrite Hnil. simpl. apply not_elem_of_nil. }
  rewrite Hnil, fmap_nil, app_nil_l in Hkeys.
  exists w', ([LOG_D "Fonts initialization" []] ++ [] ++ tr).
  split.
  { rewrite setup_as_add_all. unfold mbind, M_bind, emit. cbv beta iota.
    rewrite clear_true_empty by exact Hnil. cbv beta iota.
    rewrite Hrun. reflexivity. }
  split; [exact Hkeys|]. split; [exact Hu|]. split; [exact Hpage|].
  intros Hall. rewrite Hkeys.
  assert (Hprefix : forall l,
            forallb (fun x => source_opens (FromFile x.2)) l = true -> opened_prefix l = l).
  { induction l as [|x l IH]; [reflexivity|]. simpl. intros Hl.
    apply andb_true_iff in Hl as [Hx Hl]. rewrite Hx, IH by exact Hl. reflexivity. }
  rewrite Hprefix by exact Hall. reflexivity.
Qed.

End Setup.

(* ===================================================================== *)
(** * Properties of the menu *)
(* ===================================================================== *)

Section Menu.
Import MenuViewer.
Variable SCREEN_WIDTH : Z.

Lemma set_current_entry_index_id (v : MenuViewer.t) :
  set_current_entry_index (current_entry_index v) v = v.
Proof. destruct v; reflexivity. Qed.

Lemma set_current_entry_index_twice (i j : Z) (v : MenuViewer.t) :
  set_current_entry_index i (set_current_entry_index j v) = set_current_entry_index i v.
Proof. reflexivity. Qed.

(** The index after PREV or NEXT, as arithmetic modulo the number of
    entries. *)
Lemma step_index_mod (v : MenuViewer.t) :
  wf v ->
  step_index NEXT v = (current_entry_index v + 1) mod (max_index v + 1) /\
  step_index PREV v = (current_entry_index v - 1) mod (max_index v + 1).
Proof.
  intros ((Hlo & Hhi) & _). unfold step_index. split.
  - destruct (decide (current_entry_index v < max_index v)).
    + rewrite Z.mod_small by lia. reflexivity.
    + replace (current_entry_index v + 1) with (max_index v + 1) by lia.
      rewrite Z.mod_same by lia. reflexivity.
  - destruct (decide (current_entry_index v > 0)).
    + rewrite Z.mod_small by lia. reflexivity.
    + replace (current_entry_index v - 1) with (-1) by lia.
      apply (Z.mod_unique (-1) (max_index v + 1) (-1)); lia.
Qed.

(** PREV and NEXT move the index and nothing else, and never read an array
    past its end. *)
Lemma event_step (key : KeyEvent) (v : MenuViewer.t) :
  key = PREV \/ key = NEXT ->
  wf v ->
  exists calls,
    event SCREEN_WIDTH key v =
      Some (false, set_current_entry_index (step_index key v) v, calls) /\
    wf (set_current_entry_index (step_index key v) v) /\
    head calls = Some page_start /\ last calls = Some (page_paint false) /\
    ((exists d p, page_put_highlight d p ∈ calls) <->
     step_index key v <> current_entry_index v) /\
    (page_paint true ∉ calls) /\ (forall f, menu_func f ∉ calls).
Proof.
  intros Hkey Hwf.
  assert (Hrange : 0 <= step_index key v <= max_index v).
  { destruct Hwf as ((Hlo & Hhi) & _). unfold step_index.
    destruct Hkey as [-> | ->].
    - destruct (decide (current_entry_index v > 0)); lia.
    - destruct (decide (current_entry_index v < max_index v)); lia. }
  assert (Hwf' : wf (set_current_entry_index (step_index key v) v)).
  { destruct Hwf as (_ & Hl & Hm). unfold wf. simpl. auto. }
  destruct Hwf as ((Hlo & Hhi) & Hlocs & Hmenu).
  destruct (lookup_lt_is_Some_2 (entry_locs v) (Z.to_nat (current_entry_index v)))
    as [old_loc Hold]; [lia|].
  destruct (lookup_lt_is_Some_2 (entry_locs v) (Z.to_nat (step_index key v)))
    as [new_loc Hnew]; [lia|].
  destruct (lookup_lt_is_Some_2 (menu v) (Z.to_nat (step_index key v)))
    as [entry Hentry]; [lia|].
  assert (Hrun : event SCREEN_WIDTH key v =
    let v' := set_current_entry_index (step_index key v) v in
    if decide (step_index key v <> current_entry_index v) then
      Some (false, v',
            [ page_start;
              page_clear_highlight (highlight_dim old_loc) (highlight_pos old_loc);
              page_put_highlight (highlight_dim new_loc) (highlight_pos new_loc);
              page_clear_region (mkDim SCREEN_WIDTH (text_height v))
                                (mkPos 0 (text_ypos v - line_height v));
              page_put_str_at (caption entry) (mkPos 10 (text_ypos v)) 1 12;
              page_paint false ])
    else Some (false, v', [page_start; page_paint false])).
  { destruct Hkey as [-> | ->]; unfold event; cbv zeta;
      change (current_entry_index (set_current_entry_index ?i v)) with i;
      change (entry_locs (set_current_entry_index ?i v)) with (entry_locs v);
      change (menu (set_current_entry_index ?i v)) with (menu v);
      change (text_height (set_current_entry_index ?i v)) with (text_height v);
      change (text_ypos (set_current_entry_index ?i v)) with (text_ypos v);
      change (line_height (set_current_entry_index ?i v)) with (line_height v);
      (destruct (decide (_ <> current_entry_index v)); [|reflexivity]);
      rewrite Hold, Hnew, Hentry; reflexivity. }
  cbv zeta in Hrun.
  destruct (decide (step_index key v <> current_entry_index v)) as [Hne|Heq].
  - eexists. split; [exact Hrun|]. split; [exact Hwf'|].
    split; [reflexivity|]. split; [reflexivity|].
    split; [split|split].
    + intros _; exact Hne.
    + intros _. eexists _, _. apply list_elem_of_In. simpl. right. right. left. reflexivity.
    + intros Hin. apply list_elem_of_In in Hin. simpl in Hin. intuition discriminate.
    + intros f Hin. apply list_elem_of_In in Hin. simpl in Hin. intuition discriminate.
  - eexists. split; [exact Hrun|]. split; [exact Hwf'|].
    split; [reflexivity|]. split; [reflexivity|].
    split; [split|split].
    + intros (d & p & Hin). apply list_elem_of_In in Hin. simpl in Hin.
      destruct Hin as [?|[?|[]]]; discriminate.
    + intros ?; contradiction.
    + intros Hin. apply list_elem_of_In in Hin. simpl in Hin. intuition discriminate.
    + intros f Hin. apply list_elem_of_In in Hin. simpl in Hin. intuition discriminate.
Qed.

Lemma presses_index (key : KeyEvent) (delta : Z) (n : nat) :
  (key = PREV /\ delta = -1) \/ (key = NEXT /\ delta = 1) ->
  forall v,
    wf v ->
    presses SCREEN_WIDTH key n v =
      Some (set_current_entry_index
              ((current_entry_index v + delta * Z.of_nat n) mod (max_index v + 1)) v).
Proof.
  intros Hkey. induction n as [|n IH]; intros v Hwf.
  - simpl. replace (current_entry_index v + delta * Z.of_nat 0) with (current_entry_index v) by lia.
    destruct Hwf as ((Hlo & Hhi) & _).
    rewrite Z.mod_small by lia. rewrite set_current_entry_index_id. reflexivity.
  - assert (Hk : key = PREV \/ key = NEXT) by tauto.
    destruct (event_step key v Hk Hwf) as (calls & Hrun & Hwf' & _).
    simpl. rewrite Hrun. simpl. rewrite (IH _ Hwf').
    change (current_entry_index (set_current_entry_index ?i v)) with i.
    change (max_index (set_current_entry_index ?i v)) with (max_index v).
    rewrite set_current_entry_index_twice.
    f_equal. f_equal.
    destruct (step_index_mod v Hwf) as [Hnext Hprev].
    assert (Hstep : step_index key v = (current_entry_index v + delta) mod (max_index v + 1)).
    { destruct Hkey as [[-> ->]|[-> ->]]; [exact Hprev|exact Hnext]. }
    rewrite Hstep. destruct Hwf as ((Hlo & Hhi) & _).
    rewrite Zplus_mod_idemp_l. f_equal. lia.
Qed.

(** X13. The selection of the menu moves in a circle.  On a menu whose
    index is at most [max_index], with an array element for every index up to
    it: PREV and NEXT return false, read no array past its end, change the
    index only and leave it between 0 and [max_index]; NEXT adds one and PREV
    subtracts one modulo the number of entries; each undoes the other; and
    as many presses of one of them as there are entries bring the object
    back to where it was. *)
Theorem menu_selection_cycles (v : MenuViewer.t) :
  wf v ->
  (forall key, key = PREV \/ key = NEXT ->
     exists calls,
       event SCREEN_WIDTH key v =
         Some (false, set_current_entry_index (step_index key v) v, calls) /\
       wf (set_current_entry_index (step_index key v) v)) /\
  step_index NEXT v = (current_entry_index v + 1) mod (max_index v + 1) /\
  step_index PREV v = (current_entry_index v - 1) mod (max_index v + 1) /\
  presses SCREEN_WIDTH PREV 1 (set_current_entry_index (step_index NEXT v) v) = Some v /\
  presses SCREEN_WIDTH NEXT 1 (set_current_entry_index (step_index PREV v) v) = Some v /\
  presses SCREEN_WIDTH NEXT (Z.to_nat (max_index v + 1)) v = Some v /\
  presses SCREEN_WIDTH PREV (Z.to_nat (max_index v + 1)) v = Some v.
Proof.
  intros Hwf.
  destruct (step_index_mod v Hwf) as [Hnext Hprev].
  pose proof Hwf as ((Hlo & Hhi) & _).
  assert (Hback : forall i, (i mod (max_index v + 1)) = current_entry_index v ->
            Some (set_current_entry_index (i mod (max_index v + 1)) v) = Some v).
  { intros i ->. rewrite set_current_entry_index_id. reflexivity. }
  split; [|split; [exact Hnext|split; [exact Hprev|split; [|split; [|split]]]]].
  - intros key Hkey. destruct (event_step key v Hkey Hwf) as (calls & Hrun & Hwf' & _).
    eauto.
  - destruct (event_step NEXT v (or_intror eq_refl) Hwf) as (_ & _ & Hwf' & _).
    rewrite (presses_index PREV (-1) 1 (or_introl (conj eq_refl eq_refl)) _ Hwf').
    change (current_entry_index (set_current_entry_index ?i v)) with i.
    change (max_index (set_current_entry_index ?i v)) with (max_index v).
    rewrite set_current_entry_index_twice.
    apply Hback. rewrite Hnext, Zplus_mod_idemp_l.
    replace (current_entry_index v + 1 + -1 * Z.of_nat 1) with (current_entry_index v) by lia.
    apply Z.mod_small. lia.
  - destruct (event_step PREV v (or_introl eq_refl) Hwf) as (_ & _ & Hwf' & _).
    rewrite (presses_index NEXT 1 1 (or_intror (conj eq_refl eq_refl)) _ Hwf').
    change (current_entry_index (set_current_entry_index ?i v)) with i.
    change (max_index (set_current_entry_index ?i v)) with (max_index v).
    rewrite set_current_entry_index_twice.
    apply Hback. rewrite Hprev, Zplus_mod_idemp_l.
    replace (current_entry_index v - 1 + 1 * Z.of_nat 1) with (current_entry_index v) by lia.
    apply Z.mod_small. lia.
  - rewrite (presses_index NEXT 1 _ (or_intror (conj eq_refl eq_refl)) v Hwf).
    apply Hback.
    replace (current_entry_index v + 1 * Z.of_nat (Z.to_nat (max_index v + 1)))
      with (current_entry_index v + 1 * (max_index v + 1)) by lia.
    rewrite Z_mod_plus_full. apply Z.mod_small. lia.
  - rewrite (presses_index PREV (-1) _ (or_introl (conj eq_refl eq_refl)) v Hwf).
    apply Hback.
    replace (current_entry_index v + -1 * Z.of_nat (Z.to_nat (max_index v + 1)))
      with (current_entry_index v + -1 * (max_index v + 1)) by lia.
    rewrite Z_mod_plus_full. apply Z.mod_small. lia.
Qed.

(** X14. What a key does to the screen.  On such a menu, every call of
    [event] starts the page first; only DBL_SELECT returns true; only PREV
    and NEXT change the object and paint, with a partial refresh, as their
    last call; the highlight is drawn again exactly when PREV or NEXT moved
    the index, that is on a menu of more than one entry; SELECT calls the
    function of the current entry when it has one and does not paint. *)
Theorem menu_event_effects (v : MenuViewer.t) (key : KeyEvent) :
  wf v ->
  exists r v' calls,
    event SCREEN_WIDTH key v = Some (r, v', calls) /\
    head calls = Some page_start /\
    (r = true <-> key = DBL_SELECT) /\
    (key <> PREV -> key <> NEXT -> v' = v /\ (page_paint false ∉ calls)) /\
    (key = PREV \/ key = NEXT ->
     last calls = Some (page_paint false) /\
     ((exists d p, page_put_highlight d p ∈ calls) <-> 0 < max_index v)) /\
    (page_paint true ∉ calls) /\
    (forall f, menu_func f ∈ calls <->
       key = SELECT /\
       exists entry, menu v !! Z.to_nat (current_entry_index v) = Some entry /\
                     func entry = Some f).
Proof.
  intros Hwf.
  assert (Hcases : (key = PREV \/ key = NEXT) \/ ~ (key = PREV \/ key = NEXT)).
  { destruct key; first [left; tauto | right; intros [?|?]; discriminate]. }
  destruct Hcases as [Hkey|Hother].
  - destruct (event_step key v Hkey Hwf)
      as (calls & Hrun & Hwf' & Hhead & Hlast & Hhl & Hnopaint & Hnofunc).
    exists false, (set_current_entry_index (step_index key v) v), calls.
    split; [exact Hrun|]. split; [exact Hhead|].
    split; [split; [discriminate|intros ->; destruct Hkey; discriminate]|].
    split; [intros ? ?; destruct Hkey; contradiction|].
    assert (Hmoved : step_index key v <> current_entry_index v <-> 0 < max_index v).
    { destruct Hwf as ((Hlo & Hhi) & _). unfold step_index.
      destruct Hkey as [-> | ->].
      - destruct (decide (current_entry_index v > 0)); lia.
      - destruct (decide (current_entry_index v < max_index v)); lia. }
    split; [intros _; split; [exact Hlast|rewrite Hhl; exact Hmoved]|].
    split; [exact Hnopaint|].
    intros f. split.
    + intros Hin. destruct (Hnofunc f Hin).
    + intros [-> _]. destruct Hkey; discriminate.
  - destruct Hwf as ((Hlo & Hhi) & Hlocs & Hmenu).
    destruct (lookup_lt_is_Some_2 (menu v) (Z.to_nat (current_entry_index v)))
      as [entry Hentry]; [lia|].
    destruct key; try (exfalso; apply Hother; tauto);
      unfold event; rewrite ?Hentry; simpl;
      eexists _, _, _; (split; [reflexivity|]); (split; [reflexivity|]);
      (split; [split; [try discriminate; reflexivity|try discriminate; reflexivity]|]);
      (split; [intros _ _; split; [reflexivity|];
               intros Hin; apply list_elem_of_In in Hin; simpl in Hin;
               destruct (func entry); simpl in Hin; intuition discriminate|]);
      (split; [intros [?|?]; discriminate|]);
      (split; [intros Hin; apply list_elem_of_In in Hin; simpl in Hin;
               destruct (func entry); simpl in Hin; intuition discriminate|]);
      intros f; (split; [intros Hin; apply list_elem_of_In in Hin; simpl in Hin|]).
    all: try (intuition discriminate).
    + destruct (func entry) as [f0|] eqn:Hf; simpl in Hin; [|intuition discriminate].
      destruct Hin as [?|[Hin|[]]]; [discriminate|]. injection Hin as <-.
      split; [reflexivity|]. exists entry. split; [reflexivity|exact Hf].
    + intros (_ & e & He & Hf). injection He as <-. rewrite Hf.
      apply list_elem_of_In. simpl. right. left. reflexivity.
Qed.

End Menu.

(* ===================================================================== *)
(** * Measuring a string again, and the ways a face is loaded *)
(* ===================================================================== *)

Section GetSizeWarm.
Context `{Env}.





End GetSizeWarm.

Section Loading.
Context `{Env}.

(** X16. [adjust_font_style] applied twice with the same attributes gives
    what it gives applied once; whatever the style it starts from, the
    attributes italic or normal and bold or normal lead to each of the four
    styles; and the values a [font_style] and a [font_weight] are not meant
    to take (BOLD and BOLD_ITALIC for the first, ITALIC and BOLD_ITALIC for
    the second) leave the style as it is. *)
Theorem adjust_font_style_idempotent (style fs fw target : FaceStyle) :
  adjust_font_style (adjust_font_style style fs fw) fs fw = adjust_font_style style fs fw /\
  adjust_font_style style
    (if is_italic target then ITALIC else NORMAL)
    (if is_bold target then BOLD else NORMAL) = target /\
  adjust_font_style style BOLD ITALIC = style /\
  adjust_font_style style BOLD BOLD_ITALIC = style /\
  adjust_font_style style BOLD_ITALIC ITALIC = style /\
  adjust_font_style style BOLD_ITALIC BOLD_ITALIC = style.
Proof.
  destruct style, fs, fw, target; repeat split; reflexivity.
Qed.


(** X18. What the constructors leave in [memory_font].  The constructor
    from a file name sets it to null after the load, also when the face
    opened: the buffer the file was read into is not the one [clear_face]
    frees.  The constructor from a buffer, when the face opened, keeps the
    buffer of the caller there.  Both leave the size unset and the cache
    empty, and the object is ready exactly when the resource opened. *)
Theorem constructors_memory_font :
  (forall filename, exists t tr,
     TTF_from_file filename TTF_raw = Done tt t tr /\
     memory_font t = None /\ current_size t = -1 /\ cache t = ∅ /\
     ready t = source_opens (FromFile filename)) /\
  (forall buffer size, exists t tr,
     TTF_from_memory buffer size TTF_raw = Done tt t tr /\
     current_size t = -1 /\ cache t = ∅ /\
     ready t = source_opens (FromMemory buffer size) /\
     (ready t = true -> memory_font t = Some buffer)).
Proof.
  split.
  - intros filename.
    unfold TTF_from_file, set_font_face_from_file, set_font_face_from_memory. exec.
    destruct (read_font_file filename) as [| |bytes]; simpl;
      try (eexists _, _; split; [reflexivity|]; repeat split; reflexivity).
    destruct (FT_New_Memory_Face bytes (Z.of_nat (length bytes))); simpl;
      eexists _, _; (split; [reflexivity|]); repeat split; reflexivity.
  - intros buffer size.
    unfold TTF_from_memory, set_font_face_from_memory. exec.
    destruct (FT_New_Memory_Face buffer size); simpl;
      eexists _, _; (split; [reflexivity|]);
      (split; [reflexivity|]); (split; [reflexivity|]); (split; [reflexivity|]).
    + reflexivity.
    + discriminate.
Qed.

End Loading.

(* ===================================================================== *)
(** * The further properties at concrete inputs *)
(* ===================================================================== *)

Import Scenarios.


Lemma three_fonts_usable : usable three_fonts_epub.
Proof.
  split; [split|].
  - intros e He. apply list_elem_of_In in He. vm_compute in He.
    destruct He as [<-|[<-|[<-|[]]]];
      eexists _, _; split; vm_compute; reflexivity.
  - apply (bool_decide_unpack _). vm_compute. exact I.
  - intros e l t He Hfont Hheap. apply list_elem_of_In in He. vm_compute in He.
    destruct He as [<-|[<-|[<-|[]]]];
      vm_compute in Hfont; injection Hfont as <-;
      vm_compute in Hheap; injection Hheap as <-; discriminate.
Qed.

(** The bold default face in a registry of three faces. *)
Lemma get_index_finds_first_witness :
  exists idx,
    get_index "Default" BOLD three_fonts_epub = Done idx three_fonts_epub [] /\
    ((idx = -1 /\
      forall e, e ∈ font_cache three_fonts_epub -> ~ entry_for "Default" BOLD e) \/
     (0 <= idx /\
      exists e,
        font_cache three_fonts_epub !! Z.to_nat idx = Some e /\
        entry_for "Default" BOLD e /\
        forall (j : nat) e', (j < Z.to_nat idx)%nat ->
          font_cache three_fonts_epub !! j = Some e' -> ~ entry_for "Default" BOLD e')).
Proof.
  apply (get_index_finds_first three_fonts_epub "Default" BOLD).
  vm_compute. discriminate.
Defined.

(** The regular default face, registered in an empty registry and looked
    up. *)
Lemma add_then_lookup_witness :
  let w1 := final empty_world (add (H := env0) "Default" NORMAL "regular.otf" empty_world) in
  exists idx e,
    get_index "Default" NORMAL w1 = Done idx w1 [] /\
    entry_for "Default" NORMAL e /\
    get (H := env0) idx w1 = Done (font e) w1 [] /\
    idx = 0.
Proof.
  intros w1.
  destruct (add_then_lookup (H := env0) empty_world w1 "Default" NORMAL
              (FromFile "regular.otf")
              (trace_of (add (H := env0) "Default" NORMAL "regular.otf" empty_world)))
    as (idx & e & Hidx & _ & _ & He & Hget & Hnew).
  - vm_compute. discriminate.
  - vm_compute. reflexivity.
  - vm_compute. reflexivity.
  - exists idx, e. split; [exact Hidx|]. split; [exact He|]. split; [exact Hget|].
    destruct Hnew as [-> _]; reflexivity.
Defined.

(** A paragraph in the regular default face turns bold, in a registry that
    has the bold default face. *)
Lemma reset_font_index_consistent_witness :
  exists fmt' tr,
    reset_font_index (H := env0) body_format BOLD three_fonts_epub =
      Done fmt' three_fonts_epub tr /\
    fmt' = set_font (font_index fmt') (font_style fmt') body_format /\
    style_at three_fonts_epub (font_index fmt') (font_style fmt').
Proof.
  destruct (reset_font_index_consistent (H := env0) three_fonts_epub body_format BOLD
              {| name := "Drawings"; font := Some 0%nat; style := NORMAL |}
              {| name := "Default"; font := Some 1%nat; style := NORMAL |})
    as [_ Hchanged].
  - vm_compute. discriminate.
  - vm_compute. discriminate.
  - vm_compute. split; discriminate.
  - vm_compute. reflexivity.
  - vm_compute. reflexivity.
  - reflexivity.
  - destruct Hchanged as (fmt' & tr & family & Hrun & Hfmt & Hstyle & _).
    + vm_compute. discriminate.
    + exists fmt', tr. split; [exact Hrun|]. split; [exact Hfmt|exact Hstyle].
Defined.

(** [clear_face] on a fresh face. *)
Lemma TTF_inv_kept_witness :
  exists t', clear_face face0 = Done tt t' [] /\ TTF_inv (H := env0) t'.
Proof.
  destruct (TTF_inv_kept (H := env0)) as [_ Hkept].
  destruct (Hkept face0 face0_inv) as (_ & _ & _ & _ & Hclear & _).
  exact Hclear.
Defined.

(** Another font loaded into the face that has 'a' at size 10 in its
    cache. *)
Lemma reload_drops_old_face_witness :
  exists b t' tr,
    set_font_face_from_memory (H := env0) [Byte.x02] 1 face_a = Done b t' tr /\
    cache t' = ∅ /\ byte_pools t' = [] /\ current_size t' = -1.
Proof.
  destruct (reload_drops_old_face (H := env0) face_a [Byte.x02] 1)
    as (b & t' & tr & Hrun & Hc & Hp & Hs & _).
  - vm_compute. discriminate.
  - exists b, t', tr. split; [exact Hrun|]. split; [exact Hc|]. split; [exact Hp|exact Hs].
Defined.


(** 'a' on a face whose outlines the renderer refuses. *)
Lemma failed_render_leaks_glyph_witness :
  exists t' tr,
    get_glyph (H := env_no_render) 97 10 face_no_render = Done None t' tr /\
    cache t' = cache face_no_render /\
    bitmap_glyph_pool t' = S (bitmap_glyph_pool face_no_render).
Proof.
  destruct (failed_render_leaks_glyph (H := env_no_render) face_no_render
              {| handle := 1; char_height := Some 640 |} 97
              {| metrics_width := 320; metrics_height := 640; format_is_bitmap := false;
                 bitmap_pitch := 0; bitmap_rows := 0; bitmap_width := 0;
                 bitmap_left := 0; bitmap_top := 0; advance_x := 4544 |} 19)
    as (t' & tr & Hrun & Hcache & Hpool & _).
  - vm_compute. reflexivity.
  - vm_compute. reflexivity.
  - vm_compute. discriminate.
  - vm_compute. reflexivity.
  - reflexivity.
  - vm_compute. reflexivity.
  - exists t', tr. split; [exact Hrun|]. split; [exact Hcache|exact Hpool].
Defined.


(** [get] with an index past the end, on a registry of three faces. *)
Lemma registry_stays_usable_witness :
  exists l t tr,
    get (H := env0) 7 three_fonts_epub = Done (Some l) three_fonts_epub tr /\
    heap three_fonts_epub !! l = Some t /\ ready t = true.
Proof.
  destruct (registry_stays_usable (H := env0)) as (_ & _ & _ & _ & Hget).
  apply Hget.
  - vm_compute. discriminate.
  - vm_compute. reflexivity.
  - vm_compute. split; discriminate.
  - vm_compute. discriminate.
  - exact three_fonts_usable.
Defined.

(** [clear_glyph_caches] on a registry of three faces. *)
Lemma clear_glyph_caches_purges_witness :
  exists w',
    clear_glyph_caches three_fonts_epub = Done tt w' [] /\
    font_cache w' = font_cache three_fonts_epub /\ page w' = page three_fonts_epub.
Proof.
  destruct (clear_glyph_caches_purges three_fonts_epub three_fonts_usable)
    as (w' & Hrun & Hfc & Hpage & _).
  exists w'. split; [exact Hrun|]. split; [exact Hfc|exact Hpage].
Defined.

(** [clear(false)] on a registry of three faces, and [clear_glyph_caches]
    after it. *)
Lemma clear_short_registry_leaves_null_fonts_witness :
  exists w',
    clear (H := env0) false three_fonts_epub = Done tt w' [] /\
    length (font_cache w') = 5%nat /\
    get (H := env0) 4 w' = Done None w' [] /\
    clear_glyph_caches w' = Failed NullDeref [].
Proof.
  destruct (clear_short_registry_leaves_null_fonts (H := env0) three_fonts_epub)
    as (w' & Hrun & Hfc & Hget & Hfail).
  - reflexivity.
  - vm_compute. discriminate.
  - exact (proj1 three_fonts_usable).
  - vm_compute. lia.
  - exists w'. split; [exact Hrun|]. split; [rewrite Hfc; vm_compute; reflexivity|].
    split; [|exact Hfail]. apply Hget. vm_compute. split; [discriminate|reflexivity].
Defined.

(** [setup] where every file opens. *)
Lemma setup_registers_builtin_fonts_witness :
  exists w' tr,
    setup (H := env0) "/fonts" empty_world = Done true w' tr /\
    length (font_cache w') = 12%nat /\
    usable w'.
Proof.
  destruct (setup_registers_builtin_fonts (H := env0) "/fonts" empty_world eq_refl)
    as (w' & tr & Hrun & _ & Husable & _ & Hall).
  assert (Hopen : forallb (fun x => source_opens (H := env0) (FromFile x.2))
                    (setup_fonts "/fonts") = true) by (vm_compute; reflexivity).
  rewrite Hopen in Hrun. specialize (Hall Hopen).
  exists w', tr. split; [exact Hrun|]. split; [|exact Husable].
  apply (f_equal length) in Hall. rewrite length_fmap in Hall. exact Hall.
Defined.

(** Three presses of NEXT, or of PREV, on a menu of three entries. *)
Lemma menu_selection_cycles_witness :
  MenuViewer.presses 600 MenuViewer.NEXT 3 three_entries = Some three_entries /\
  MenuViewer.presses 600 MenuViewer.PREV 3 three_entries = Some three_entries.
Proof.
  destruct (menu_selection_cycles 600 three_entries) as (_ & _ & _ & _ & _ & Hnext & Hprev).
  - unfold MenuViewer.wf. simpl. lia.
  - split; [exact Hnext|exact Hprev].
Defined.

(** NEXT on a menu of three entries. *)
Lemma menu_event_effects_witness :
  exists r v' calls,
    MenuViewer.event 600 MenuViewer.NEXT three_entries = Some (r, v', calls) /\
    head calls = Some MenuViewer.page_start /\
    last calls = Some (MenuViewer.page_paint false) /\
    exists d p, MenuViewer.page_put_highlight d p ∈ calls.
Proof.
  destruct (menu_event_effects 600 three_entries MenuViewer.NEXT)
    as (r & v' & calls & Hrun & Hhead & _ & _ & Hnav & _).
  - unfold MenuViewer.wf. simpl. lia.
  - destruct (Hnav (or_intror eq_refl)) as [Hlast Hhl].
    exists r, v', calls. split; [exact Hrun|]. split; [exact Hhead|].
    split; [exact Hlast|]. apply Hhl. vm_compute. reflexivity.
Defined.



(** The constructor from a buffer FreeType takes. *)
Lemma constructors_memory_font_witness :
  exists t tr,
    TTF_from_memory (H := env0) [Byte.x01] 1 TTF_raw = Done tt t tr /\
    memory_font t = Some [Byte.x01].
Proof.
  destruct (constructors_memory_font (H := env0)) as [_ Hmem].
  destruct (Hmem [Byte.x01] 1) as (t & tr & Hrun & _ & _ & Hready & Hbuf).
  exists t, tr. split; [exact Hrun|]. apply Hbuf. rewrite Hready. reflexivity.
Defined.
